(** * sbdb: set-based design data generation and verification

    A shallow embedding of [src/sbdb/sets.py] (classes [DesignVariableSet],
    [ObjectSet] and [VerifiedObjectLibrary]) together with the properties the
    specification states about them.

    Conventions of the embedding.
    - A Python scalar held in a table cell or a parameter record is a [Value]:
      text, a number, or the float NaN (pandas' missing marker).  A number is
      its exact rational value ([Qc]).  The two quantities that the code
      rounds to decimals, the percentage error of [error_calc] and the
      coverage of [error_report], are computed as Python computes them, in
      binary64 with a rounding after every operation, because the decimal
      rounding makes the last bit of the float visible.  The sums and means
      of the report are exact.
    - A [dict] is an insertion-ordered association list with unique keys.
    - A raised exception is the [Raise] alternative of [Result]; statements are
      sequenced with the bind of that monad.
    - Mutable attributes of an object ([self.param_list], ...) are fields of a
      record that is passed explicitly. *)

From Stdlib Require Import String Bool Arith ZArith QArith Qabs Qcanon Qround Qpower Lia Lqa List.
Import ListNotations.

Set Implicit Arguments.

Local Close Scope Qc_scope.
Local Close Scope Q_scope.
Local Open Scope string_scope.
Local Open Scope nat_scope.
Local Open Scope list_scope.

(* ================================================================== *)
(** * Part I. The model                                                *)
(* ================================================================== *)

(** ** Python values and exceptions *)

Inductive Value : Type :=
| VStr (s : string)
| VNum (x : Qc)
| VNaN.

Definition num (z : Z) : Value := VNum (Q2Qc (inject_Z z)).

(** Structural equality of values, as a boolean test.  It is the equality of
    the embedding (it identifies NaN with NaN); Python's [==] is [py_eq]
    below. *)
Definition Qc_eqb (x y : Qc) : bool := Qeq_bool x y.

Definition Value_eqb (a b : Value) : bool :=
  match a, b with
  | VStr s, VStr t => String.eqb s t
  | VNum x, VNum y => Qc_eqb x y
  | VNaN, VNaN => true
  | _, _ => false
  end.

Lemma Qc_eqb_eq (x y : Qc) : Qc_eqb x y = true <-> x = y.
Proof.
  unfold Qc_eqb. rewrite Qeq_bool_iff. split.
  - apply Qc_is_canon.
  - intros ->. reflexivity.
Qed.

Lemma Value_eqb_eq (a b : Value) : Value_eqb a b = true <-> a = b.
Proof.
  destruct a as [s|x|], b as [t|y|]; simpl;
    try (split; [discriminate | intros H; discriminate H]).
  - rewrite String.eqb_eq. split; congruence.
  - rewrite Qc_eqb_eq. split; congruence.
  - split; reflexivity.
Qed.

Definition Value_eq_dec (a b : Value) : {a = b} + {a <> b}.
Proof.
  destruct (Value_eqb a b) eqn:E; [left | right].
  - apply Value_eqb_eq. exact E.
  - intros H. apply Value_eqb_eq in H. congruence.
Defined.

(** The exception classes that occur in the modelled code.  [FactoryError]
    stands for whatever [Exception] the user supplied reference class raises.
    [Overflow] is not a Python exception: it marks a float computation whose
    result is an infinity, which Python returns and this development does
    not follow any further. *)
Inductive Exn : Type :=
| ValueError
| KeyError
| TypeError
| IndexError
| ZeroDivisionError
| FactoryError
| Overflow.

Inductive Result (A : Type) : Type :=
| Ok (a : A)
| Raise (e : Exn).

Arguments Ok {A} a.
Arguments Raise {A} e.

Definition bind {A B : Type} (c : Result A) (k : A -> Result B) : Result B :=
  match c with
  | Ok a => k a
  | Raise e => Raise e
  end.

Declare Scope py_scope.
Delimit Scope py_scope with py.
Notation "x <- c ;; k" := (bind c (fun x => k))
  (at level 61, c at next level, right associativity) : py_scope.
Local Open Scope py_scope.

Definition is_ok {A : Type} (r : Result A) : bool :=
  match r with Ok _ => true | Raise _ => false end.

(** [[f(x) for x in l]] where [f] may raise: the first exception aborts. *)
Fixpoint mapM {A B : Type} (f : A -> Result B) (l : list A) : Result (list B) :=
  match l with
  | [] => Ok []
  | x :: l' => y <- f x ;; ys <- mapM f l' ;; Ok (y :: ys)
  end.

(** ** DesignVariableSet *)

(** A parameter record: [dict[str, value]], keys in insertion order. *)
Definition ParamRecord : Type := list (string * Value).

(** [design_var_sets]: variable name to its sequence of candidate values, in
    declaration order.  A Python dict has unique keys; that invariant is the
    predicate [dict_keys_unique]. *)
Definition DesignVarSets : Type := list (string * list Value).

Definition dict_keys_unique {V : Type} (d : list (string * V)) : Prop :=
  NoDup (map fst d).

(** [d[k] = v] on an insertion-ordered dict: an existing key keeps its place. *)
Fixpoint dict_set (k : string) (v : Value) (d : ParamRecord) : ParamRecord :=
  match d with
  | [] => [(k, v)]
  | (k', v') :: d' =>
      if String.eqb k k' then (k, v) :: d' else (k', v') :: dict_set k v d'
  end.

(** [dict(pairs)]. *)
Definition dict_of_pairs (pairs : list (string * Value)) : ParamRecord :=
  fold_left (fun d kv => dict_set (fst kv) (snd kv) d) pairs [].

(** [itertools.product] applied to the unpacked [pools], after the
    equivalent given in the Python documentation:
<<
    result = [[]]
    for pool in pools:
        result = [x+[y] for x in result for y in pool]
>> *)
Definition product_step {A : Type} (result : list (list A)) (pool : list A)
  : list (list A) :=
  flat_map (fun x => map (fun y => x ++ [y]) pool) result.

Definition product {A : Type} (pools : list (list A)) : list (list A) :=
  fold_left product_step pools [[]].

(** [DesignVariableSet.read_design_variable_set]. *)
Definition read_design_variable_set (data : DesignVarSets) : list ParamRecord :=
  let keys := map fst data in
  let design_var_cross_product := product (map snd data) in
  map (fun d => dict_of_pairs (combine keys d)) design_var_cross_product.

(** [__post_init__] / [solve_me]: [param_list] is the expansion. *)
Record DesignVariableSet : Type := mkDesignVariableSet {
  design_var_sets : DesignVarSets;
  dvs_param_list : list ParamRecord
}.

Definition new_DesignVariableSet (data : DesignVarSets) : DesignVariableSet :=
  {| design_var_sets := data; dvs_param_list := read_design_variable_set data |}.

(** *** Vocabulary for the statements about the expansion *)

(** The recursive reading of the Cartesian product, leftmost pool outermost. *)
Fixpoint product_rec {A : Type} (pools : list (list A)) : list (list A) :=
  match pools with
  | [] => [[]]
  | pool :: rest => flat_map (fun y => map (cons y) (product_rec rest)) pool
  end.

Definition list_prod (l : list nat) : nat := fold_right Nat.mul 1 l.

Definition var_sizes (data : DesignVarSets) : list nat :=
  map (fun kv => length (snd kv)) data.

(** [rec] assigns to every declared variable, in declaration order, one of
    its candidate values. *)
Definition is_combination (data : DesignVarSets) (rec : ParamRecord) : Prop :=
  Forall2 (fun kv rv => fst rv = fst kv /\ In (snd rv) (snd kv)) data rec.

(** Position of the combination with digit vector [idx] in odometer order:
    the last digit is the least significant one. *)
Fixpoint odometer (sizes idx : list nat) : nat :=
  match sizes, idx with
  | _ :: sizes', i :: idx' => i * list_prod sizes' + odometer sizes' idx'
  | _, _ => 0
  end.

(** The record selected by a digit vector: variable [k] takes its [i_k]-th
    candidate. *)
Fixpoint select (data : DesignVarSets) (idx : list nat) : option ParamRecord :=
  match data, idx with
  | [], [] => Some []
  | (k, vals) :: data', i :: idx' =>
      match nth_error vals i, select data' idx' with
      | Some v, Some r => Some ((k, v) :: r)
      | _, _ => None
      end
  | _, _ => None
  end.

Fixpoint ParamRecord_eqb (a b : ParamRecord) : bool :=
  match a, b with
  | [], [] => true
  | (k, v) :: a', (k', v') :: b' =>
      String.eqb k k' && Value_eqb v v' && ParamRecord_eqb a' b'
  | _, _ => false
  end.

Lemma ParamRecord_eqb_eq (a : ParamRecord) : forall b,
  ParamRecord_eqb a b = true <-> a = b.
Proof.
  induction a as [|[k v] a IH]; intros [|[k' v'] b]; simpl;
    try (split; [discriminate | intros H; discriminate H]).
  - split; reflexivity.
  - rewrite !andb_true_iff, String.eqb_eq, Value_eqb_eq, IH.
    split; [intros [[-> ->] ->]; reflexivity | intros H; injection H; auto].
Qed.

Definition ParamRecord_eq_dec (a b : ParamRecord) : {a = b} + {a <> b}.
Proof.
  destruct (ParamRecord_eqb a b) eqn:E; [left | right].
  - apply ParamRecord_eqb_eq. exact E.
  - intros H. apply ParamRecord_eqb_eq in H. congruence.
Defined.

(** ** Tables *)

Definition Row : Type := list Value.

(** A [pandas.DataFrame] whose row labels are the default integers
    [0 .. n-1]: the column names and the rows, each row holding one cell per
    column.  Row labels coincide with row positions. *)
Record DataFrame : Type := mkDataFrame {
  df_columns : list string;
  df_rows : list Row
}.

(** [pd.DataFrame(data=None, columns=cols)]. *)
Definition empty_frame (cols : list string) : DataFrame :=
  {| df_columns := cols; df_rows := [] |}.

(** [df.loc[len(df)] = values]: setting with enlargement appends one row.
    pandas refuses it on a frame without columns ("cannot set a frame with no
    defined columns") and for a list whose length differs from the number of
    columns ("cannot set a row with mismatched columns"); both are
    [ValueError]. *)
Definition loc_append (df : DataFrame) (values : Row) : Result DataFrame :=
  match df_columns df with
  | [] => Raise ValueError
  | _ :: _ =>
      if length values =? length (df_columns df)
      then Ok {| df_columns := df_columns df; df_rows := df_rows df ++ [values] |}
      else Raise ValueError
  end.

(** The row seen as a mapping from column name to cell. *)
Definition named_row (cols : list string) (row : Row) : list (string * Value) :=
  combine cols row.

(** Store [v] in the cells of [row] under the columns called [name]. *)
Definition put_cell (cols : list string) (name : string) (v : Value) (row : Row) : Row :=
  map (fun cx => if String.eqb (fst cx) name then v else snd cx) (combine cols row).

(** [df[name] = vals] for a list [vals].
    - On a frame without rows a non-empty list first defines the row labels:
      the frame gets [len(vals)] rows whose existing columns hold NaN.
    - Otherwise the list must have one entry per row, else pandas raises
      [ValueError] ("Length of values does not match length of index").
    - An existing column is overwritten, a new one is added last. *)
Definition set_column (df : DataFrame) (name : string) (vals : list Value)
  : Result DataFrame :=
  let rows :=
    match df_rows df, vals with
    | [], _ :: _ => map (fun _ => map (fun _ => VNaN) (df_columns df)) vals
    | rows, _ => rows
    end in
  if length vals =? length rows then
    if existsb (String.eqb name) (df_columns df)
    then Ok {| df_columns := df_columns df;
               df_rows := map (fun rv => put_cell (df_columns df) name (snd rv) (fst rv))
                              (combine rows vals) |}
    else Ok {| df_columns := df_columns df ++ [name];
               df_rows := map (fun rv => fst rv ++ [snd rv]) (combine rows vals) |}
  else Raise ValueError.

(** [enumerate(l)]. *)
Definition enumerate {A : Type} (l : list A) : list (nat * A) :=
  combine (seq 0 (length l)) l.

(** [df.query(q).index]: the labels of the rows on which the query holds.  The
    query string is abstracted as a predicate on the named row. *)
Definition query_index (df : DataFrame) (q : list (string * Value) -> bool) : list nat :=
  map fst (filter (fun ir => q (named_row (df_columns df) (snd ir)))
                  (enumerate (df_rows df))).

(** [sorted(l, reverse=True)] on integers. *)
Fixpoint insert_desc (x : nat) (l : list nat) : list nat :=
  match l with
  | [] => [x]
  | y :: l' => if y <=? x then x :: l else y :: insert_desc x l'
  end.

Definition sorted_reverse (l : list nat) : list nat :=
  fold_right insert_desc [] l.

(** [del l[i]] for a non-negative [i]; out of range raises [IndexError]. *)
Fixpoint py_del {A : Type} (l : list A) (i : nat) : Result (list A) :=
  match l, i with
  | [], _ => Raise IndexError
  | _ :: l', 0 => Ok l'
  | x :: l', S i' => l'' <- py_del l' i' ;; Ok (x :: l'')
  end.

(** The list [l] without the entries at the positions [idxs], positions being
    counted from [s]. *)
Fixpoint drop_positions {A : Type} (s : nat) (idxs : list nat) (l : list A) : list A :=
  match l with
  | [] => []
  | x :: l' =>
      if existsb (Nat.eqb s) idxs
      then drop_positions (S s) idxs l'
      else x :: drop_positions (S s) idxs l'
  end.

Fixpoint ascending (l : list nat) : Prop :=
  match l with
  | [] => True
  | i :: rest => Forall (fun j => i < j) rest /\ ascending rest
  end.

Fixpoint descending (l : list nat) : Prop :=
  match l with
  | [] => True
  | i :: rest => Forall (fun j => j < i) rest /\ descending rest
  end.

(** ** ObjectSet *)

Section ObjectSetModel.

(** The reference class is an opaque factory: calling it with the entries of
    a parameter record as keyword arguments returns an object or raises.
    [getattr o a = None] says that [hasattr(o, a)] is false. *)
Variable Obj : Type.
Variable reference_class : ParamRecord -> Result Obj.
Variable getattr : Obj -> string -> option Value.

Record ObjectSet : Type := mkObjectSet {
  param_list : list ParamRecord;
  report_attrs : list string;
  value_fn : option (list Value);
  object_set : list Obj;
  object_library : DataFrame;
  skipped_indices : list nat
}.

(** The locals of [generate_object_set] that the loop updates: [obj_set],
    [df] and [self.skipped_indices]. *)
Record GenState : Type := mkGenState {
  gs_obj_set : list Obj;
  gs_df : DataFrame;
  gs_skipped : list nat
}.

(** The inner loop [for attr_name in df_columns], building
    [attr_value_list]; a missing attribute raises [ValueError]. *)
Fixpoint read_attrs (p_instance : Obj) (df_columns : list string) : Result Row :=
  match df_columns with
  | [] => Ok []
  | attr_name :: rest =>
      match getattr p_instance attr_name with
      | Some v => vs <- read_attrs p_instance rest ;; Ok (v :: vs)
      | None => Raise ValueError
      end
  end.

(** One iteration of [for i, p in enumerate(self.param_list)].  The object is
    appended to [obj_set] as soon as the factory returns, before the
    attributes are read; the handler of [except Exception] only records [i],
    so effects that happened before the exception persist. *)
Definition generate_step (attrs : list string) (st : GenState) (ip : nat * ParamRecord)
  : GenState :=
  let (i, p) := ip in
  match reference_class p with
  | Raise _ =>
      {| gs_obj_set := gs_obj_set st; gs_df := gs_df st;
         gs_skipped := gs_skipped st ++ [i] |}
  | Ok p_instance =>
      let obj_set := gs_obj_set st ++ [p_instance] in
      match (attr_value_list <- read_attrs p_instance attrs ;;
             loc_append (gs_df st) attr_value_list) with
      | Ok df =>
          {| gs_obj_set := obj_set; gs_df := df; gs_skipped := gs_skipped st |}
      | Raise _ =>
          {| gs_obj_set := obj_set; gs_df := gs_df st;
             gs_skipped := gs_skipped st ++ [i] |}
      end
  end.

Definition generate_loop (attrs : list string) (params : list ParamRecord) : GenState :=
  fold_left (generate_step attrs) (enumerate params)
            {| gs_obj_set := []; gs_df := empty_frame attrs; gs_skipped := [] |}.

(** [ObjectSet.generate_object_set]: returns [self] with [skipped_indices]
    updated, and either the pair [(obj_set, df)] or the exception that
    escapes.  The only statement outside the [try] that can raise is the
    assignment of the [value_fn] column. *)
Definition generate_object_set (self : ObjectSet)
  : ObjectSet * Result (list Obj * DataFrame) :=
  let st := generate_loop (report_attrs self) (param_list self) in
  let self' :=
    {| param_list := param_list self; report_attrs := report_attrs self;
       value_fn := value_fn self; object_set := object_set self;
       object_library := object_library self;
       skipped_indices := gs_skipped st |} in
  (self',
   match value_fn self with
   | None => Ok (gs_obj_set st, gs_df st)
   | Some w => df <- set_column (gs_df st) "value_fn" w ;; Ok (gs_obj_set st, df)
   end).

(** [self.object_set, self.object_library = self.generate_object_set()]. *)
Definition assign_generated (self : ObjectSet) : Result ObjectSet :=
  let (self', r) := generate_object_set self in
  out <- r ;;
  Ok {| param_list := param_list self'; report_attrs := report_attrs self';
        value_fn := value_fn self'; object_set := fst out;
        object_library := snd out;
        skipped_indices := skipped_indices self' |}.

(** Construction ([__post_init__]) with [report_attrs] given. *)
Definition new_ObjectSet (params : list ParamRecord) (attrs : list string)
  (weights : option (list Value)) : Result ObjectSet :=
  assign_generated
    {| param_list := params; report_attrs := attrs; value_fn := weights;
       object_set := []; object_library := empty_frame attrs;
       skipped_indices := [] |}.

(** The loop of [reduce_design_space]:
<<
    for index in sorted(list(remove_me), reverse=True):
        del self.param_list[index]
        if self.value_fn is not None:
            del self.value_fn[index]
>> *)
Fixpoint reduce_loop (indices : list nat) (params : list ParamRecord)
  (weights : option (list Value)) : Result (list ParamRecord * option (list Value)) :=
  match indices with
  | [] => Ok (params, weights)
  | index :: rest =>
      params' <- py_del params index ;;
      weights' <- match weights with
                  | None => Ok None
                  | Some w => w' <- py_del w index ;; Ok (Some w')
                  end ;;
      reduce_loop rest params' weights'
  end.

(** [ObjectSet.reduce_design_space]. *)
Definition reduce_design_space (self : ObjectSet) (q : list (string * Value) -> bool)
  : Result ObjectSet :=
  let remove_me := query_index (object_library self) q in
  pw <- reduce_loop (sorted_reverse remove_me) (param_list self) (value_fn self) ;;
  assign_generated
    {| param_list := fst pw; report_attrs := report_attrs self;
       value_fn := snd pw; object_set := object_set self;
       object_library := object_library self;
       skipped_indices := skipped_indices self |}.

(** *** Vocabulary for the statements about generation *)

Definition factory_raises (p : ParamRecord) : bool := negb (is_ok (reference_class p)).

(** The zero-based input indices whose factory invocation raises. *)
Definition raising_indices (params : list ParamRecord) : list nat :=
  map fst (filter (fun ip => factory_raises (snd ip)) (enumerate params)).

(** Every object the factory returns for a record of [params] has all the
    attributes of [attrs]. *)
Definition projections_succeed (attrs : list string) (params : list ParamRecord) : Prop :=
  forall p o, In p params -> reference_class p = Ok o ->
  forall a, In a attrs -> getattr o a <> None.

End ObjectSetModel.

(** ** Python arithmetic on cell values *)

(** [a == b] on scalars: text compares with text, numbers with numbers, and
    NaN is equal to nothing, itself included. *)
Definition py_eq (a b : Value) : bool :=
  match a, b with
  | VStr s, VStr t => String.eqb s t
  | VNum x, VNum y => Qc_eqb x y
  | _, _ => false
  end.

(** [type(v) is str]. *)
Definition is_str (v : Value) : bool :=
  match v with VStr _ => true | _ => false end.

(** [pandas.isna] on a scalar. *)
Definition is_nan (v : Value) : bool :=
  match v with VNaN => true | _ => false end.

(** A Python [float]: a number or NaN. *)
Inductive PyFloat : Type :=
| FNum (x : Qc)
| FNaN.

Definition value_of_float (f : PyFloat) : Value :=
  match f with FNum x => VNum x | FNaN => VNaN end.

(** [a * b] and [a / b] as exact operations; they serve where the result is
    a float without rounding ([x / x * 100]) and for the means of the
    report. *)
Definition fmul (a b : PyFloat) : PyFloat :=
  match a, b with FNum x, FNum y => FNum (x * y)%Qc | _, _ => FNaN end.

(** A zero divisor raises whatever the dividend. *)
Definition fdiv (a b : PyFloat) : Result PyFloat :=
  match b with
  | FNum y =>
      if Qc_eqb y (Q2Qc 0) then Raise ZeroDivisionError
      else match a with FNum x => Ok (FNum (x / y)%Qc) | FNaN => Ok FNaN end
  | FNaN => Ok FNaN
  end.

(** ** Binary floating point

    Python's [float] is IEEE 754 binary64.  A finite float is modelled by its
    exact rational value; an operation on floats is the exact operation
    followed by [to_double], the rounding to the nearest float. *)

(** The integer nearest to [q], ties to the even one. *)
Definition round_half_even (q : Q) : Z :=
  let f := Qfloor q in
  match Qcompare (q - inject_Z f) (1 # 2) with
  | Lt => f
  | Gt => (f + 1)%Z
  | Eq => if Z.even f then f else (f + 1)%Z
  end.

(** [2 ^ e] for an exponent of either sign. *)
Definition pow2 (e : Z) : Q :=
  if (0 <=? e)%Z then inject_Z (2 ^ e) else 1 # Z.to_pos (2 ^ (- e)).

(** The binary exponent of a positive rational: the [k] with
    [2 ^ k <= a < 2 ^ (k + 1)]. *)
Definition ilog2 (a : Q) : Z :=
  let k := (Z.log2 (Qnum a) - Z.log2 (Zpos (Qden a)))%Z in
  if Qle_bool (pow2 k) a then k else (k - 1)%Z.

(** The float nearest to [q], ties to the even significand: 53 significant
    bits, the exponent of the last bit no lower than -1074 (below that the
    subnormal floats are equally spaced), and [None] when the magnitude
    rounds to [2 ^ 1024] or more, where the IEEE result is an infinity. *)
Definition to_double (q : Q) : option Q :=
  let q := Qred q in
  if Qeq_bool q 0 then Some 0%Q
  else
    let a := Qabs q in
    let e := Z.max (ilog2 a - 52) (-1074) in
    let m := round_half_even (a / pow2 e) in
    let r := (inject_Z m * pow2 e)%Q in
    if Qle_bool (pow2 1024) r then None
    else Some (Qred (if Qle_bool 0 q then r else - r)%Q).

(** [n] is the integer nearest to [q], and the even one when two integers
    are equally near. *)
Definition nearest_even (q : Q) (n : Z) : Prop :=
  (Qabs (q - inject_Z n) <= 1 # 2)%Q
  /\ ((Qabs (q - inject_Z n) == 1 # 2)%Q -> Z.even n = true).

(** Rounding to a float where the result cannot leave the range of the
    floats (quotients of lengths, percentages, decimals next to a float). *)
Definition f64 (q : Q) : Qc :=
  match to_double q with Some r => Q2Qc r | None => Q2Qc q end.

(** [float(x)] on a number.  A Python number is an integer or a float: an
    integer becomes the float nearest to it, and a number that is not an
    integer is a float already and is unchanged.  The numbers of this
    development are below [2 ^ 1024] in magnitude, where [float] raises
    [OverflowError] on an integer. *)
Definition float_of_number (x : Qc) : Qc :=
  if (Z.pos (Qden x) =? 1)%Z then f64 x else x.

(** [round(x, ndigits)] on a finite float [x] and [ndigits >= 0]: the
    decimal with [ndigits] places nearest to the exact value of [x], ties to
    the even last digit, converted back to the nearest float. *)
Definition round_digits (ndigits : nat) (x : Qc) : Qc :=
  let scale := inject_Z (10 ^ Z.of_nat ndigits) in
  f64 (inject_Z (round_half_even (x * scale)) / scale).

Definition py_round (ndigits : nat) (f : PyFloat) : PyFloat :=
  match f with FNum x => FNum (round_digits ndigits x) | FNaN => FNaN end.

(** The float operations [a - b], [a * b] and [a / b] with their rounding.
    A result whose magnitude exceeds the largest float is an infinity in
    Python; infinite cells are not among the values of this development,
    and the computation stops there with [Overflow]. *)
Definition f64_result (q : Q) : Result PyFloat :=
  match to_double q with
  | Some r => Ok (FNum (Q2Qc r))
  | None => Raise Overflow
  end.

Definition f64_sub (a b : PyFloat) : Result PyFloat :=
  match a, b with
  | FNum x, FNum y => f64_result (x - y)%Qc
  | _, _ => Ok FNaN
  end.

Definition f64_mul (a b : PyFloat) : Result PyFloat :=
  match a, b with
  | FNum x, FNum y => f64_result (x * y)%Qc
  | _, _ => Ok FNaN
  end.

Definition f64_div (a b : PyFloat) : Result PyFloat :=
  match b with
  | FNum y =>
      if Qc_eqb y (Q2Qc 0) then Raise ZeroDivisionError
      else match a with FNum x => f64_result (x / y)%Qc | FNaN => Ok FNaN end
  | FNaN => Ok FNaN
  end.

(** [a / b] and [a * b] on cell values that are not known to be floats. *)
Definition as_float (v : Value) : Result PyFloat :=
  match v with
  | VNum x => Ok (FNum x)
  | VNaN => Ok FNaN
  | VStr _ => Raise TypeError
  end.

Definition py_div (a b : Value) : Result Value :=
  x <- as_float a ;; y <- as_float b ;; q <- fdiv x y ;; Ok (value_of_float q).

Definition py_mul (a b : Value) : Result Value :=
  x <- as_float a ;; y <- as_float b ;; Ok (value_of_float (fmul x y)).

Definition Qc_ltb (x y : Qc) : bool :=
  match Qcompare x y with Lt => true | _ => false end.

(** [a > b] as the builtins [max] and [min] use it; text and numbers do not
    compare. *)
Definition py_gt (a b : Value) : Result bool :=
  match a, b with
  | VNum x, VNum y => Ok (Qc_ltb y x)
  | VStr s, VStr t => Ok (String.ltb t s)
  | VNaN, (VNum _ | VNaN) | VNum _, VNaN => Ok false
  | _, _ => Raise TypeError
  end.

(** [max(l)] and [min(l)] for a non-empty [l]: the first extremal element. *)
Fixpoint py_max_from (best : Value) (l : list Value) : Result Value :=
  match l with
  | [] => Ok best
  | x :: l' => b <- py_gt x best ;; py_max_from (if b then x else best) l'
  end.

Fixpoint py_min_from (best : Value) (l : list Value) : Result Value :=
  match l with
  | [] => Ok best
  | x :: l' => b <- py_gt best x ;; py_min_from (if b then x else best) l'
  end.

Definition py_max (l : list Value) : Result Value :=
  match l with [] => Raise ValueError | x :: l' => py_max_from x l' end.

Definition py_min (l : list Value) : Result Value :=
  match l with [] => Raise ValueError | x :: l' => py_min_from x l' end.

(** [sum(l)]: starts from the integer 0, so text raises [TypeError]. *)
Definition py_add (a b : Value) : Result Value :=
  x <- as_float a ;; y <- as_float b ;;
  Ok (match x, y with FNum p, FNum q => VNum (p + q)%Qc | _, _ => VNaN end).

Fixpoint py_sum_from (acc : Value) (l : list Value) : Result Value :=
  match l with
  | [] => Ok acc
  | x :: l' => acc' <- py_add acc x ;; py_sum_from acc' l'
  end.

Definition py_sum (l : list Value) : Result Value := py_sum_from (num 0) l.

(** [abs(v)]. *)
Definition py_abs (v : Value) : Result Value :=
  match v with
  | VNum x => Ok (VNum (Q2Qc (Qabs x)))
  | VNaN => Ok VNaN
  | VStr _ => Raise TypeError
  end.

(** ** Tables indexed by a key column *)

(** The result of [df.set_index(key)]: the cells of the key column label the
    rows, the other columns remain. *)
Record IndexedFrame : Type := mkIndexedFrame {
  if_index : list Value;
  if_columns : list string;
  if_rows : list Row
}.

Fixpoint index_of (name : string) (cols : list string) : option nat :=
  match cols with
  | [] => None
  | c :: cols' =>
      if String.eqb c name then Some 0 else option_map S (index_of name cols')
  end.

Fixpoint remove_nth {A : Type} (j : nat) (l : list A) : list A :=
  match l, j with
  | [], _ => []
  | _ :: l', 0 => l'
  | x :: l', S j' => x :: remove_nth j' l'
  end.

(** [name in df.columns]. *)
Definition has_column (name : string) (cols : list string) : bool :=
  existsb (String.eqb name) cols.

(** [df.set_index(key)]; an unknown column raises [KeyError]. *)
Definition set_index (df : DataFrame) (key : string) : Result IndexedFrame :=
  match index_of key (df_columns df) with
  | None => Raise KeyError
  | Some j =>
      Ok {| if_index := map (fun row => nth j row VNaN) (df_rows df);
            if_columns := remove_nth j (df_columns df);
            if_rows := map (remove_nth j) (df_rows df) |}
  end.

(** [df.reset_index()]: the labels become the first column again. *)
Definition reset_index (key : string) (f : IndexedFrame) : DataFrame :=
  {| df_columns := key :: if_columns f;
     df_rows := map (fun ir => fst ir :: snd ir) (combine (if_index f) (if_rows f)) |}.

(** [i in df.index]. *)
Definition has_key (i : Value) (f : IndexedFrame) : bool :=
  existsb (Value_eqb i) (if_index f).

(** The cells selected by [df.loc[i, param]]. *)
Definition loc_cells (f : IndexedFrame) (i : Value) (param : string) : list Value :=
  flat_map
    (fun ir =>
       if Value_eqb (fst ir) i
       then map snd (filter (fun cx => String.eqb (fst cx) param)
                            (combine (if_columns f) (snd ir)))
       else [])
    (combine (if_index f) (if_rows f)).

(** [df.loc[i, param]] used as a scalar.  A label or a column name that
    occurs several times selects a [Series]; the comparison with [np.nan]
    and the [if] that follow in [check_error] then raise [ValueError] (the
    truth value of a Series is ambiguous).  A label or column that does not
    occur raises [KeyError]. *)
Definition loc_scalar (f : IndexedFrame) (i : Value) (param : string) : Result Value :=
  match loc_cells f i param with
  | [] => Raise KeyError
  | [v] => Ok v
  | _ :: _ :: _ => Raise ValueError
  end.

(** [df[name]]: the cells of the first column called [name]. *)
Definition get_column (df : DataFrame) (name : string) : Result (list Value) :=
  match index_of name (df_columns df) with
  | None => Raise KeyError
  | Some j => Ok (map (fun row => nth j row VNaN) (df_rows df))
  end.

(** [s.dropna()]. *)
Definition dropna (col : list Value) : list Value :=
  filter (fun v => negb (is_nan v)) col.

(** ** VerifiedObjectLibrary *)

Section VerifiedObjectLibraryModel.

(** [float(s)] on text: [None] when Python raises [ValueError]. *)
Variable float_of_str : string -> option PyFloat.

(** [float(v)]. *)
Definition py_float (v : Value) : Result PyFloat :=
  match v with
  | VNum x => Ok (FNum (float_of_number x))
  | VNaN => Ok FNaN
  | VStr s => match float_of_str s with Some f => Ok f | None => Raise ValueError end
  end.

(** [VerifiedObjectLibrary.error_calc(generated_value, verify_value, c, param)];
    the arguments [c] and [param] are not used by the body. *)
Definition error_calc (generated_value verify_value : Value) : Result Value :=
  if is_str generated_value then
    Ok (VStr (if py_eq generated_value verify_value then "match" else "not match"))
  else if py_eq verify_value (num 0) then
    if py_eq verify_value generated_value then Ok (num 0)
    else q <- py_div generated_value generated_value ;; py_mul q (num 100)
  else
    g <- py_float generated_value ;;
    v <- py_float verify_value ;;
    d <- f64_sub g v ;;
    q <- f64_div d v ;;
    result <- f64_mul q (FNum (Q2Qc 100)) ;;
    Ok (value_of_float (py_round 3 result)).

(** The body of the loop over [error_df.columns] for the row labelled [i]:
    the value stored in [c[param]]. *)
Definition check_cell (lib_df verify_df : IndexedFrame) (i : Value) (param : string)
  : Result Value :=
  if has_column param (if_columns verify_df) then
    verify_value <- loc_scalar verify_df i param ;;
    generated_value <- loc_scalar lib_df i param ;;
    if py_eq verify_value VNaN || py_eq generated_value VNaN then Ok VNaN
    else error_calc generated_value verify_value
  else Ok VNaN.

(** The body of [for i, c in error_df.iterrows()]: the row [c] after the
    loop body.  [error_df] starts with NaN in every cell, and the code relies
    on [c] being a view of the row, so that the assignments to [c[param]]
    reach [error_df]. *)
Definition check_row (lib_df verify_df : IndexedFrame) (i : Value) : Result Row :=
  if has_key i verify_df
  then mapM (check_cell lib_df verify_df i) (if_columns lib_df)
  else Ok (map (fun _ => VNaN) (if_columns lib_df)).

(** [VerifiedObjectLibrary.check_error]. *)
Definition check_error (object_library verification_library : DataFrame)
  (lookup_index : string) : Result DataFrame :=
  lib_df <- set_index object_library lookup_index ;;
  verify_df <- set_index verification_library lookup_index ;;
  rows <- mapM (check_row lib_df verify_df) (if_index lib_df) ;;
  Ok (reset_index lookup_index
        {| if_index := if_index lib_df; if_columns := if_columns lib_df;
           if_rows := rows |}).

(** One row of [report_df]. *)
Record ReportRow : Type := mkReportRow {
  parameter : string;
  checked : string;
  coverage : Value;
  max_error : Value;
  avg_error : Value;
  avg_abs_error : Value;
  min_error : Value;
  str_error : Value
}.

Definition not_checked (param : string) : ReportRow :=
  {| parameter := param; checked := "no"; coverage := VNaN; max_error := VNaN;
     avg_error := VNaN; avg_abs_error := VNaN; min_error := VNaN;
     str_error := VNaN |}.

(** [result_df[param][0]]: the cell labelled 0, the first one. *)
Definition first_cell (col : list Value) : Result Value :=
  match col with
  | [] => Raise KeyError
  | v :: _ => Ok v
  end.

(** The test [type(result_df[param][0]) is str] that selects the branch of
    the report. *)
Definition column_is_text (col : list Value) : Result bool :=
  v <- first_cell col ;; Ok (is_str v).

(** [len(a) / len(b) * 100] on Python integers: the quotient is the float
    nearest to the exact ratio, the product is rounded again. *)
Definition percentage (a b : nat) : Result Qc :=
  if b =? 0 then Raise ZeroDivisionError
  else Ok (f64 (f64 (inject_Z (Z.of_nat a) / inject_Z (Z.of_nat b)) * 100)).

(** [(1 - matched / (matched + not_matched)) * 100] on numpy integers, where
    0/0 is NaN. *)
Definition mismatch_rate (matched not_matched : nat) : Value :=
  if matched + not_matched =? 0 then VNaN
  else VNum (Q2Qc ((1 - inject_Z (Z.of_nat matched)
                        / inject_Z (Z.of_nat (matched + not_matched))) * 100)).

Definition count_equal (s : string) (col : list Value) : nat :=
  length (filter (fun v => py_eq v (VStr s)) col).

(** The body of [for param in report_df.index] when [param] is a column of
    the verification table. *)
Definition report_checked (param : string) (col : list Value) (nrows : nat)
  : Result ReportRow :=
  let present := dropna col in
  cov <- percentage (length present) nrows ;;
  text <- column_is_text col ;;
  if text then
    Ok {| parameter := param; checked := "yes";
          coverage := VNum (round_digits 2 cov);
          max_error := VStr "N/A"; avg_error := VStr "N/A";
          avg_abs_error := VStr "N/A"; min_error := VStr "N/A";
          str_error := mismatch_rate (count_equal "match" col)
                                     (count_equal "not match" col) |}
  else
    match present with
    | _ :: _ =>
        mx <- py_max present ;;
        total <- py_sum present ;;
        avg <- py_div total (num (Z.of_nat (length present))) ;;
        magnitudes <- mapM py_abs present ;;
        total_abs <- py_sum magnitudes ;;
        avg_abs <- py_div total_abs (num (Z.of_nat (length present))) ;;
        mn <- py_min present ;;
        Ok {| parameter := param; checked := "yes";
              coverage := VNum (round_digits 2 cov);
              max_error := mx; avg_error := avg; avg_abs_error := avg_abs;
              min_error := mn; str_error := VStr "N/A" |}
    | [] =>
        Ok {| parameter := param; checked := "yes";
              coverage := VNum (round_digits 2 cov);
              max_error := VStr "N/A"; avg_error := VStr "N/A";
              avg_abs_error := VStr "N/A"; min_error := VStr "N/A";
              str_error := VStr "N/A" |}
    end.

Definition report_row (object_library verification_library result_df : DataFrame)
  (param : string) : Result ReportRow :=
  if has_column param (df_columns verification_library) then
    col <- get_column result_df param ;;
    report_checked param col (length (df_rows object_library))
  else Ok (not_checked param).

(** [VerifiedObjectLibrary.error_report]: one row per column of the
    generated table, in column order. *)
Definition error_report (object_library verification_library result_df : DataFrame)
  : Result (list ReportRow) :=
  mapM (report_row object_library verification_library result_df)
       (df_columns object_library).

Record VerifiedObjectLibrary : Type := mkVerifiedObjectLibrary {
  vol_object_library : DataFrame;
  vol_verification_library : DataFrame;
  vol_lookup_index : string;
  result_df : DataFrame;
  report_df : list ReportRow
}.

(** Construction ([__post_init__]). *)
Definition new_VerifiedObjectLibrary (object_library verification_library : DataFrame)
  (lookup_index : string) : Result VerifiedObjectLibrary :=
  result <- check_error object_library verification_library lookup_index ;;
  report <- error_report object_library verification_library result ;;
  Ok {| vol_object_library := object_library;
        vol_verification_library := verification_library;
        vol_lookup_index := lookup_index;
        result_df := result; report_df := report |}.

End VerifiedObjectLibraryModel.

(** *** Vocabulary for the statements about verification *)

(** The classification in the words of the specification: the first
    non-missing cell of the column decides. *)
Definition first_non_missing (col : list Value) : option Value :=
  find (fun v => negb (is_nan v)) col.

Definition spec_column_is_text (col : list Value) : option bool :=
  option_map is_str (first_non_missing col).

(** The cell of a table in row [r] and column position [j]. *)
Definition cell_at (df : DataFrame) (r j : nat) : option Value :=
  match nth_error (df_rows df) r with
  | Some row => nth_error row j
  | None => None
  end.

(** The keys present in a table: the cells of its key column. *)
Definition keys_of (df : DataFrame) (key : string) : list Value :=
  match get_column df key with Ok col => col | Raise _ => [] end.

(** ** Dicts with arbitrary keys *)

(** An insertion-ordered [dict] whose keys are compared with [eqb].  For
    text and numbers [Value_eqb] is the equality Python uses for dict keys. *)
Section Assoc.

Context {K V : Type} (eqb : K -> K -> bool).

(** [d[k] = v]. *)
Fixpoint assoc_set (k : K) (v : V) (d : list (K * V)) : list (K * V) :=
  match d with
  | [] => [(k, v)]
  | (k', v') :: d' =>
      if eqb k k' then (k, v) :: d' else (k', v') :: assoc_set k v d'
  end.

(** [dict(pairs)]. *)
Definition assoc_of_pairs (pairs : list (K * V)) : list (K * V) :=
  fold_left (fun d kv => assoc_set (fst kv) (snd kv) d) pairs [].

(** [d.get(k)]; [d[k]] raises [KeyError] where this is [None]. *)
Fixpoint assoc_get (k : K) (d : list (K * V)) : option V :=
  match d with
  | [] => None
  | (k', v) :: d' => if eqb k k' then Some v else assoc_get k d'
  end.

End Assoc.

(** ** DesignVariableSet, continued *)

(** [DesignVariableSet.replace_variable]: the values of [var_name] are read
    (an unknown name raises [KeyError]), [op] is applied to each of them (an
    exception of [op] escapes before anything is assigned), the new list is
    stored under the same key and [solve_me] rebuilds [param_list]. *)
Definition replace_variable (self : DesignVariableSet) (var_name : string)
  (op : Value -> Result Value) : Result DesignVariableSet :=
  match assoc_get String.eqb var_name (design_var_sets self) with
  | None => Raise KeyError
  | Some vals =>
      vals' <- mapM op vals ;;
      Ok (new_DesignVariableSet
            (assoc_set String.eqb var_name vals' (design_var_sets self)))
  end.

(** [[(N - v) / N for v in list(range(N))]]. *)
Definition descending_weights (N : nat) : list Qc :=
  map (fun v => Q2Qc ((inject_Z (Z.of_nat N) - inject_Z (Z.of_nat v))
                      / inject_Z (Z.of_nat N)))
      (seq 0 N).

(** [DesignVariableSet.create_value_function]: for every variable the dict
    that maps its candidate values to their weights. *)
Definition create_value_function (self : DesignVariableSet)
  : list (string * list (Value * Qc)) :=
  fold_left
    (fun val_fn kv =>
       let N := length (snd kv) in
       let v_i := descending_weights N in
       let val_fn_dict := assoc_of_pairs Value_eqb (combine (snd kv) v_i) in
       assoc_set String.eqb (fst kv) val_fn_dict val_fn)
    (design_var_sets self) [].

(** [DesignVariableSet.merge_parameter_lists]. *)
Definition merge_parameter_lists (merge_list : list DesignVariableSet)
  : list ParamRecord :=
  flat_map dvs_param_list merge_list.

(** The record [rec] with [f] applied to the value stored under [k]. *)
Definition update_entry (k : string) (f : Value -> Value) (rec : ParamRecord)
  : ParamRecord :=
  map (fun kv => if String.eqb (fst kv) k then (fst kv, f (snd kv)) else kv) rec.

(** The expansion of a mapping with unique keys, by recursion on the
    mapping. *)
Definition expansion_rec (data : DesignVarSets) : list ParamRecord :=
  map (combine (map fst data)) (product_rec (map snd data)).

(** ** ObjectSet, continued *)

Section ObjectSetExtra.

Variable Obj : Type.
Variable reference_class : ParamRecord -> Result Obj.
Variable getattr : Obj -> string -> option Value.

(** [ObjectSet.make_name_dict]: the cells of the column [index_name] zipped
    with the objects by position, collected into a dict. *)
Definition make_name_dict (self : ObjectSet Obj) (index_name : string)
  : Result (list (Value * Obj)) :=
  keys <- get_column (object_library self) index_name ;;
  Ok (assoc_of_pairs Value_eqb (combine keys (object_set self))).

(** The objects the factory returns for the records of [params], in
    order. *)
Definition produced_objects (params : list ParamRecord) : list Obj :=
  flat_map (fun p => match reference_class p with
                     | Ok o => [o]
                     | Raise _ => []
                     end) params.

(** The values of the attributes [attrs] of an object that has them all. *)
Definition attribute_row (attrs : list string) (o : Obj) : Row :=
  map (fun a => match getattr o a with Some v => v | None => VNaN end) attrs.

(** The table row of a parameter record on which the factory returns. *)
Definition record_row (attrs : list string) (p : ParamRecord) : Row :=
  match reference_class p with
  | Ok o => attribute_row attrs o
  | Raise _ => []
  end.

End ObjectSetExtra.

(** A table is rectangular when every row has one cell per column. *)
Definition rectangular (df : DataFrame) : Prop :=
  Forall (fun row => length row = length (df_columns df)) (df_rows df).




(** ** Concrete inputs used in the examples below *)

(** [{"length": [1, 2], "material": ["steel", "alu"]}] *)
Definition beam_vars : DesignVarSets :=
  [("length", [num 1; num 2]); ("material", [VStr "steel"; VStr "alu"])].

(** [{"x": [1, 1]}]: a candidate value listed twice. *)
Definition repeated_vars : DesignVarSets := [("x", [num 1; num 1])].

(** Lookup in a mapping given as an association list. *)
Definition dict_get (d : list (string * Value)) (k : string) : option Value :=
  option_map snd (find (fun kv => String.eqb (fst kv) k) d).

(** A reference class for the examples.  A beam is built from the keyword
    argument [length]; the constructor raises for a zero length (and when the
    argument is missing), and the object exposes its constructor arguments as
    attributes. *)
Definition Beam : Type := ParamRecord.

Definition beam_class (p : ParamRecord) : Result Beam :=
  match dict_get p "length" with
  | Some v => if Value_eqb v (num 0) then Raise FactoryError else Ok p
  | None => Raise FactoryError
  end.

Definition beam_getattr (o : Beam) (a : string) : option Value := dict_get o a.

Definition beam_of_length (n : Z) : ParamRecord := [("length", num n)].

(** The query [length == n]. *)
Definition length_is (n : Z) (row : list (string * Value)) : bool :=
  match dict_get row "length" with
  | Some v => Value_eqb v (num n)
  | None => false
  end.

(** An [ObjectSet] before [__post_init__] has run. *)
Definition fresh_ObjectSet (params : list ParamRecord) (attrs : list string)
  (weights : option (list Value)) : ObjectSet Beam :=
  {| param_list := params; report_attrs := attrs; value_fn := weights;
     object_set := []; object_library := empty_frame attrs;
     skipped_indices := [] |}.

(** Three records, the first of which the factory rejects. *)
Definition three_beams : list ParamRecord :=
  [beam_of_length 0; beam_of_length 1; beam_of_length 2].

(** A text parser for the examples: no text denotes a number. *)
Definition no_numeric_text (s : string) : option PyFloat := None.

(** A generated table and a reference table that lacks the key [A] and the
    column [mass]. *)
Definition bolts_generated : DataFrame :=
  {| df_columns := ["name"; "grade"; "mass"];
     df_rows := [[VStr "B"; VStr "y"; num 5]; [VStr "A"; VStr "x"; num 7]] |}.

Definition bolts_reference : DataFrame :=
  {| df_columns := ["name"; "grade"];
     df_rows := [[VStr "B"; VStr "y"]] |}.

(** A text column whose first key is absent from the reference table. *)
Definition grades_generated : DataFrame :=
  {| df_columns := ["name"; "grade"];
     df_rows := [[VStr "A"; VStr "x"]; [VStr "B"; VStr "y"]] |}.

Definition grades_reference : DataFrame :=
  {| df_columns := ["name"; "grade"];
     df_rows := [[VStr "B"; VStr "y"]] |}.

(** A reference table that stores NaN for the grade of [B]. *)
Definition grades_reference_nan : DataFrame :=
  {| df_columns := ["name"; "grade"];
     df_rows := [[VStr "A"; VStr "x"]; [VStr "B"; VNaN]] |}.

(** The per-cell result and the report for the bolt tables. *)
Definition bolts_result : DataFrame :=
  {| df_columns := ["name"; "grade"; "mass"];
     df_rows := [[VStr "B"; VStr "match"; VNaN]; [VStr "A"; VNaN; VNaN]] |}.

Definition bolts_report : list ReportRow :=
  Eval vm_compute in
    match error_report bolts_generated bolts_reference bolts_result with
    | Ok rep => rep
    | Raise _ => []
    end.

(** Two beams with a weight each, after construction and after the
    reduction by the query [length == 1]. *)
Definition weighted_beams : ObjectSet Beam :=
  {| param_list := [beam_of_length 1; beam_of_length 2];
     report_attrs := ["length"];
     value_fn := Some [num 1; num 2];
     object_set := [beam_of_length 1; beam_of_length 2];
     object_library :=
       {| df_columns := ["length"; "value_fn"];
          df_rows := [[num 1; num 1]; [num 2; num 2]] |};
     skipped_indices := [] |}.

Definition weighted_beams_reduced : ObjectSet Beam :=
  {| param_list := [beam_of_length 2];
     report_attrs := ["length"];
     value_fn := Some [num 2];
     object_set := [beam_of_length 2];
     object_library :=
       {| df_columns := ["length"; "value_fn"];
          df_rows := [[num 2; num 2]] |};
     skipped_indices := [] |}.



(** A generated table without rows. *)
Definition no_bolts : DataFrame :=
  {| df_columns := ["name"; "grade"]; df_rows := [] |}.

(* ================================================================== *)
(** * Part II. Properties                                              *)
(* ================================================================== *)

(** ** The Cartesian expansion *)

Lemma NoDup_map_injective (A B : Type) (f : A -> B) (l : list A) :
  (forall x y, In x l -> In y l -> f x = f y -> x = y) ->
  NoDup l -> NoDup (map f l).
Proof.
  intros Hinj Hnd. induction Hnd as [|x l Hx Hnd IH]; simpl; constructor.
  - intros Hin. apply in_map_iff in Hin as (y & Hy & Hin).
    assert (y = x) by (apply Hinj; [right; assumption | left; reflexivity | assumption]).
    subst. contradiction.
  - apply IH. intros y z Hy Hz. apply Hinj; right; assumption.
Qed.

Section ProductFacts.
Context {A : Type}.

Lemma product_fold (pools : list (list A)) : forall acc,
  fold_left product_step pools acc
  = flat_map (fun x => map (app x) (product_rec pools)) acc.
Proof.
  induction pools as [|pool rest IH]; intros acc; simpl.
  - induction acc as [|x acc IHa]; simpl; [reflexivity|].
    rewrite app_nil_r. f_equal. exact IHa.
  - rewrite IH. unfold product_step.
    induction acc as [|x acc IHa]; simpl; [reflexivity|].
    rewrite flat_map_app. f_equal; [|exact IHa].
    clear IHa. induction pool as [|y pool IHp]; simpl; [reflexivity|].
    rewrite map_app, map_map. f_equal; [|exact IHp].
    apply map_ext. intros t. rewrite <- app_assoc. reflexivity.
Qed.

Lemma product_eq_rec (pools : list (list A)) : product pools = product_rec pools.
Proof.
  unfold product. rewrite product_fold. simpl.
  rewrite app_nil_r. rewrite map_id. reflexivity.
Qed.

Lemma length_flat_map_const (B : Type) (f : A -> list B) (m : nat) (l : list A) :
  (forall x, In x l -> length (f x) = m) -> length (flat_map f l) = length l * m.
Proof.
  induction l as [|x l IH]; intros H; simpl; [reflexivity|].
  rewrite length_app, H by (left; reflexivity).
  rewrite IH by (intros; apply H; right; assumption). reflexivity.
Qed.

Lemma length_product_rec (pools : list (list A)) :
  length (product_rec pools) = list_prod (map (@length A) pools).
Proof.
  induction pools as [|pool rest IH]; simpl; [reflexivity|].
  rewrite length_flat_map_const with (m := length (product_rec rest)).
  - rewrite IH. reflexivity.
  - intros. apply length_map.
Qed.

Lemma in_product_rec (pools : list (list A)) : forall t,
  In t (product_rec pools) <-> Forall2 (fun pool x => In x pool) pools t.
Proof.
  induction pools as [|pool rest IH]; intros t; simpl.
  - split.
    + intros [<-|[]]. constructor.
    + intros H. inversion H. left; reflexivity.
  - rewrite in_flat_map. split.
    + intros (y & Hy & Ht). apply in_map_iff in Ht as (t' & <- & Ht').
      constructor; [assumption|]. apply IH. assumption.
    + intros H. inversion H as [|? x ? t' Hx Ht']; subst.
      exists x. split; [assumption|]. apply in_map. apply IH. assumption.
Qed.

Lemma nth_error_flat_map_block (B : Type) (f : A -> list B) (m : nat) :
  forall (l : list A) (i j : nat) (x : A),
  (forall y, In y l -> length (f y) = m) ->
  nth_error l i = Some x -> j < m ->
  nth_error (flat_map f l) (i * m + j) = nth_error (f x) j.
Proof.
  induction l as [|y l IH]; intros i j x Hlen Hi Hj.
  - destruct i; discriminate.
  - destruct i as [|i]; simpl in *.
    + injection Hi as ->. rewrite nth_error_app1; [reflexivity|].
      rewrite Hlen by (left; reflexivity). assumption.
    + rewrite nth_error_app2 by (rewrite Hlen by (left; reflexivity); lia).
      rewrite Hlen by (left; reflexivity).
      replace (m + i * m + j - m) with (i * m + j) by lia.
      apply IH; auto.
Qed.

Lemma NoDup_flat_map_disjoint (B : Type) (f : A -> list B) (l : list A) :
  NoDup l ->
  (forall x, In x l -> NoDup (f x)) ->
  (forall x y b, In x l -> In y l -> In b (f x) -> In b (f y) -> x = y) ->
  NoDup (flat_map f l).
Proof.
  induction 1 as [|x l Hx Hnd IH]; intros Hf Hdisj; simpl; [constructor|].
  apply NoDup_app.
  - apply Hf. left; reflexivity.
  - apply IH.
    + intros; apply Hf; right; assumption.
    + intros y z b Hy Hz. apply Hdisj; right; assumption.
  - intros b Hb Hb'. apply in_flat_map in Hb' as (y & Hy & Hby).
    assert (x = y) by (apply (Hdisj x y b); auto; [left; reflexivity | right; assumption]).
    subst. contradiction.
Qed.

Lemma NoDup_product_rec (pools : list (list A)) :
  Forall (@NoDup A) pools -> NoDup (product_rec pools).
Proof.
  induction 1 as [|pool rest Hp Hrest IH]; simpl.
  - constructor; [intros []| constructor].
  - apply NoDup_flat_map_disjoint; [assumption| |].
    + intros x _. apply NoDup_map_injective; [|assumption].
      intros a b _ _ Hab. injection Hab. auto.
    + intros x y b _ _ Hb Hb'.
      apply in_map_iff in Hb as (t & <- & _).
      apply in_map_iff in Hb' as (t' & Heq & _). congruence.
Qed.

End ProductFacts.

(** *** Records: [dict(zip(keys, d))] *)

Lemma dict_set_fresh (k : string) (v : Value) (d : ParamRecord) :
  ~ In k (map fst d) -> dict_set k v d = d ++ [(k, v)].
Proof.
  induction d as [|[k' v'] d IH]; simpl; intros Hk; [reflexivity|].
  destruct (String.eqb_spec k k') as [->|_].
  - exfalso. apply Hk. left; reflexivity.
  - rewrite IH; [reflexivity|]. intros Hin. apply Hk. right; assumption.
Qed.

Lemma dict_of_pairs_fresh (pairs : list (string * Value)) : forall acc,
  NoDup (map fst (acc ++ pairs)) ->
  fold_left (fun d kv => dict_set (fst kv) (snd kv) d) pairs acc = acc ++ pairs.
Proof.
  induction pairs as [|[k v] pairs IH]; intros acc Hnd; simpl.
  - rewrite app_nil_r. reflexivity.
  - rewrite map_app in Hnd. simpl in Hnd.
    assert (Hk : ~ In k (map fst acc)).
    { intros Hin. apply NoDup_remove_2 in Hnd. apply Hnd.
      apply in_or_app. left; assumption. }
    rewrite dict_set_fresh by assumption.
    rewrite IH.
    + rewrite <- app_assoc. reflexivity.
    + rewrite <- app_assoc. simpl. rewrite map_app. simpl. assumption.
Qed.

Lemma NoDup_fst_combine (V : Type) (ks : list string) : forall (d : list V),
  NoDup ks -> NoDup (map fst (combine ks d)).
Proof.
  induction ks as [|k ks IH]; intros d Hnd; simpl; [constructor|].
  destruct d as [|v d]; simpl; [constructor|].
  inversion Hnd as [|? ? Hk Hnd']; subst. constructor.
  - intros Hin. apply Hk. apply in_map_iff in Hin as ([k' v'] & Heq & Hin).
    simpl in Heq. subst. apply in_combine_l in Hin. assumption.
  - apply IH. assumption.
Qed.

Lemma dict_of_zip (ks : list string) (d : list Value) :
  NoDup ks -> dict_of_pairs (combine ks d) = combine ks d.
Proof.
  intros Hnd. unfold dict_of_pairs.
  rewrite dict_of_pairs_fresh; [reflexivity|].
  simpl. apply NoDup_fst_combine. assumption.
Qed.

Lemma read_design_variable_set_rec (data : DesignVarSets) :
  dict_keys_unique data ->
  read_design_variable_set data
  = map (combine (map fst data)) (product_rec (map snd data)).
Proof.
  intros Hnd. unfold read_design_variable_set. rewrite product_eq_rec.
  apply map_ext. intros d. apply dict_of_zip. exact Hnd.
Qed.

Lemma combine_injective (V : Type) (ks : list string) : forall (t t' : list V),
  length t = length ks -> length t' = length ks ->
  combine ks t = combine ks t' -> t = t'.
Proof.
  induction ks as [|k ks IH]; intros [|v t] [|v' t'] Ht Ht' Heq;
    simpl in *; try discriminate; [reflexivity|].
  injection Heq as -> Heq. f_equal. apply IH; auto.
Qed.

Lemma length_in_product_rec (A : Type) (pools : list (list A)) (t : list A) :
  In t (product_rec pools) -> length t = length pools.
Proof.
  intros Hin. apply in_product_rec in Hin.
  symmetry. eapply Forall2_length. exact Hin.
Qed.

Lemma combination_of_tuple (data : DesignVarSets) : forall t,
  Forall2 (fun pool x => In x pool) (map snd data) t ->
  is_combination data (combine (map fst data) t).
Proof.
  unfold is_combination.
  induction data as [|[k vals] data IH]; intros t H; simpl in *.
  - constructor.
  - inversion H as [|? x ? t' Hx Ht']; subst. constructor; [split; auto|].
    apply IH. assumption.
Qed.

Lemma tuple_of_combination (data : DesignVarSets) : forall rec,
  is_combination data rec ->
  rec = combine (map fst data) (map snd rec)
  /\ Forall2 (fun pool x => In x pool) (map snd data) (map snd rec).
Proof.
  unfold is_combination.
  induction 1 as [|[k vals] [k' v] data rec [Hk Hv] Hrest [IH1 IH2]]; simpl in *.
  - split; [reflexivity | constructor].
  - subst. split; [f_equal; exact IH1 | constructor; assumption].
Qed.

Lemma in_expansion_iff (data : DesignVarSets) (rec : ParamRecord) :
  dict_keys_unique data ->
  (In rec (read_design_variable_set data) <-> is_combination data rec).
Proof.
  intros Hnd. rewrite read_design_variable_set_rec by assumption.
  rewrite in_map_iff. split.
  - intros (t & <- & Ht). apply combination_of_tuple.
    apply in_product_rec. assumption.
  - intros H. apply tuple_of_combination in H as [Heq Hall].
    exists (map snd rec). split; [symmetry; exact Heq|].
    apply in_product_rec. assumption.
Qed.

(** *** Odometer order *)

Lemma list_prod_var_sizes (data : DesignVarSets) :
  list_prod (map (@length Value) (map snd data)) = list_prod (var_sizes data).
Proof. unfold var_sizes. rewrite map_map. reflexivity. Qed.

Lemma odometer_lt (sizes : list nat) : forall idx,
  Forall2 lt idx sizes -> odometer sizes idx < list_prod sizes.
Proof.
  induction sizes as [|s sizes IH]; intros idx H; inversion H as [|i ? idx' ? Hi Hrest]; subst; simpl.
  - lia.
  - specialize (IH _ Hrest). nia.
Qed.

Lemma odometer_onto (sizes : list nat) : forall p,
  p < list_prod sizes ->
  exists idx, Forall2 lt idx sizes /\ odometer sizes idx = p.
Proof.
  induction sizes as [|s sizes IH]; intros p Hp; simpl in *.
  - exists []. split; [constructor | lia].
  - assert (HP : list_prod sizes <> 0) by (intros E; rewrite E in Hp; lia).
    destruct (IH (p mod list_prod sizes)) as (idx & Hidx & Hodo).
    { apply Nat.mod_upper_bound. assumption. }
    exists (p / list_prod sizes :: idx). split.
    + constructor; [|assumption].
      apply Nat.Div0.div_lt_upper_bound. lia.
    + simpl. rewrite Hodo.
      pose proof (Nat.div_mod_eq p (list_prod sizes)). lia.
Qed.

Lemma nth_error_expansion (data : DesignVarSets) : forall idx,
  Forall2 lt idx (var_sizes data) ->
  select data idx <> None
  /\ nth_error (map (combine (map fst data)) (product_rec (map snd data)))
               (odometer (var_sizes data) idx)
     = select data idx.
Proof.
  induction data as [|[k vals] data IH]; intros idx H;
    inversion H as [|i s idx' sizes Hi Hrest]; subst; simpl.
  - split; [discriminate | reflexivity].
  - destruct (IH _ Hrest) as [Hsome Hnth]. clear IH.
    destruct (nth_error vals i) as [v|] eqn:Hv.
    2:{ apply nth_error_None in Hv. simpl in Hi. lia. }
    destruct (select data idx') as [r|] eqn:Hsel; [|congruence].
    split; [discriminate|].
    rewrite nth_error_map in Hnth |- *.
    rewrite <- list_prod_var_sizes, <- length_product_rec.
    rewrite (@nth_error_flat_map_block _ _ _ (length (product_rec (map snd data))) vals i _ v).
    + rewrite nth_error_map.
      destruct (nth_error (product_rec (map snd data)) (odometer (var_sizes data) idx'))
        as [t|]; simpl in *; [|discriminate].
      injection Hnth as <-. reflexivity.
    + intros. apply length_map.
    + assumption.
    + rewrite length_product_rec, list_prod_var_sizes. apply odometer_lt. assumption.
Qed.

Lemma NoDup_expansion (data : DesignVarSets) :
  dict_keys_unique data ->
  (forall kv, In kv data -> NoDup (snd kv)) ->
  NoDup (read_design_variable_set data).
Proof.
  intros Hkeys Hvals. rewrite read_design_variable_set_rec by assumption.
  apply NoDup_map_injective.
  - intros t t' Ht Ht'. apply combine_injective.
    + rewrite (length_in_product_rec _ _ Ht). rewrite !length_map. reflexivity.
    + rewrite (length_in_product_rec _ _ Ht'). rewrite !length_map. reflexivity.
  - apply NoDup_product_rec. apply Forall_forall. intros pool Hin.
    apply in_map_iff in Hin as (kv & <- & Hin). apply Hvals. assumption.
Qed.

(** *** The claims about [DesignVariableSet] *)

(** The property "every combination of one value per variable appears exactly
    once", read for every mapping with non-empty value sequences. *)
Definition every_combination_exactly_once : Prop :=
  forall data : DesignVarSets,
    dict_keys_unique data ->
    (forall kv, In kv data -> snd kv <> []) ->
    forall rec, is_combination data rec ->
      count_occ ParamRecord_eq_dec (dvs_param_list (new_DesignVariableSet data)) rec = 1.

(** C1, as stated, fails: for [{"x": [1, 1]}] the expansion is
    [[{"x": 1}, {"x": 1}]], so the combination [x = 1] appears twice. *)
Lemma repeated_candidate_expands_twice : ~ every_combination_exactly_once.
Proof.
  intros H.
  specialize (H repeated_vars).
  assert (Hk : dict_keys_unique repeated_vars).
  { unfold dict_keys_unique; simpl. constructor; [intros [] | constructor]. }
  assert (Hne : forall kv, In kv repeated_vars -> snd kv <> []).
  { intros kv [<-|[]]. discriminate. }
  specialize (H Hk Hne [("x", num 1)]).
  assert (Hc : is_combination repeated_vars [("x", num 1)]).
  { repeat constructor. }
  specialize (H Hc). vm_compute in H. discriminate.
Qed.

(** C1 (amended).  For every design variable mapping, the expansion built on
    construction has as many records as the product of the value-sequence
    lengths; its records are exactly the assignments of one candidate value to
    every variable; the record at odometer position [idx] (rightmost declared
    variable cycling fastest) is the one selecting the [idx]-th candidates,
    and every position is such an odometer position; and when no value
    sequence lists a value twice, every combination appears exactly once. *)
Theorem expansion_is_cartesian_product (data : DesignVarSets) :
  dict_keys_unique data ->
  let params := dvs_param_list (new_DesignVariableSet data) in
  length params = list_prod (var_sizes data)
  /\ (forall rec, In rec params <-> is_combination data rec)
  /\ (forall idx, Forall2 lt idx (var_sizes data) ->
        select data idx <> None
        /\ nth_error params (odometer (var_sizes data) idx) = select data idx)
  /\ (forall p, p < length params ->
        exists idx, Forall2 lt idx (var_sizes data)
                    /\ odometer (var_sizes data) idx = p)
  /\ ((forall kv, In kv data -> NoDup (snd kv)) ->
      NoDup params
      /\ forall rec, is_combination data rec ->
           count_occ ParamRecord_eq_dec params rec = 1).
Proof.
  intros Hkeys params. subst params. simpl.
  assert (Hlen : length (read_design_variable_set data) = list_prod (var_sizes data)).
  { rewrite read_design_variable_set_rec by assumption.
    rewrite length_map, length_product_rec. apply list_prod_var_sizes. }
  split; [exact Hlen|].
  split; [intros rec; apply in_expansion_iff; assumption|].
  split.
  { intros idx Hidx. rewrite read_design_variable_set_rec by assumption.
    apply nth_error_expansion. assumption. }
  split.
  { intros p Hp. apply odometer_onto. rewrite <- Hlen. assumption. }
  intros Hvals.
  assert (Hnd : NoDup (read_design_variable_set data))
    by (apply NoDup_expansion; assumption).
  split; [exact Hnd|].
  intros rec Hrec.
  apply (proj1 (NoDup_count_occ' ParamRecord_eq_dec _) Hnd).
  apply in_expansion_iff; assumption.
Qed.

Lemma beam_vars_keys_unique : dict_keys_unique beam_vars.
Proof.
  unfold dict_keys_unique; simpl.
  constructor; [simpl; intros [H|[]]; discriminate|].
  constructor; [intros [] | constructor].
Defined.

Lemma expansion_is_cartesian_product_witness :
  dict_keys_unique beam_vars
  /\ length (dvs_param_list (new_DesignVariableSet beam_vars)) = 4
  /\ nth_error (dvs_param_list (new_DesignVariableSet beam_vars)) 1
     = Some [("length", num 1); ("material", VStr "alu")].
Proof.
  split; [exact beam_vars_keys_unique|].
  destruct (expansion_is_cartesian_product beam_vars_keys_unique)
    as (Hlen & _ & Hord & _).
  split; [exact Hlen|].
  destruct (Hord [0; 1]) as [_ Hnth].
  - repeat constructor.
  - exact Hnth.
Defined.

(** The spec's end-to-end example: four records, in the order
    [(1,steel), (1,alu), (2,steel), (2,alu)]. *)
Example beam_vars_expansion :
  read_design_variable_set beam_vars
  = [ [("length", num 1); ("material", VStr "steel")];
      [("length", num 1); ("material", VStr "alu")];
      [("length", num 2); ("material", VStr "steel")];
      [("length", num 2); ("material", VStr "alu")] ].
Proof. reflexivity. Qed.

(** C7, as stated, fails: the expansion of the empty mapping is not empty. *)
Lemma empty_mapping_expansion_not_empty :
  dvs_param_list (new_DesignVariableSet []) <> []
  /\ length (dvs_param_list (new_DesignVariableSet [])) <> 0.
Proof. split; discriminate. Qed.

(** C7 (amended).  Constructing a [DesignVariableSet] from the empty mapping
    succeeds and yields exactly one parameter record, the empty record:
    [itertools.product()] of no pools is the single empty tuple. *)
Theorem empty_mapping_expands_to_one_empty_record :
  dvs_param_list (new_DesignVariableSet []) = [ [] ]
  /\ length (dvs_param_list (new_DesignVariableSet [])) = 1.
Proof. split; reflexivity. Qed.

(** ** Object generation *)

Lemma filter_length_split (A : Type) (f : A -> bool) (l : list A) :
  length (filter f l) + length (filter (fun x => negb (f x)) l) = length l.
Proof.
  induction l as [|x l IH]; simpl; [reflexivity|].
  destruct (f x); simpl; lia.
Qed.

Lemma filter_enumerate_from (A : Type) (f : A -> bool) (l : list A) : forall s,
  length (filter (fun ip => f (snd ip)) (combine (seq s (length l)) l))
  = length (filter f l).
Proof.
  induction l as [|x l IH]; intros s; simpl; [reflexivity|].
  destruct (f x); simpl; rewrite IH; reflexivity.
Qed.

Lemma in_enumerate_from (A : Type) (l : list A) : forall s i x,
  In (i, x) (combine (seq s (length l)) l)
  <-> s <= i /\ nth_error l (i - s) = Some x.
Proof.
  induction l as [|y l IH]; intros s i x; simpl.
  - split; [intros [] | intros [_ H]]. destruct (i - s); discriminate.
  - rewrite IH. split.
    + intros [H | [Hle Hnth]].
      * injection H as <- <-. rewrite Nat.sub_diag. split; [lia | reflexivity].
      * split; [lia|]. replace (i - s) with (S (i - S s)) by lia. exact Hnth.
    + intros [Hle Hnth]. destruct (i - s) as [|k] eqn:E.
      * left. simpl in Hnth. injection Hnth as <-. f_equal. lia.
      * right. split; [lia|]. replace (i - S s) with k by lia. exact Hnth.
Qed.

Lemma set_column_fits (df : DataFrame) (name : string) (w : list Value) :
  length w = length (df_rows df) ->
  exists df', set_column df name w = Ok df'
              /\ length (df_rows df') = length (df_rows df).
Proof.
  intros Hlen. unfold set_column.
  assert (Hrows : match df_rows df, w with
                  | [], _ :: _ => map (fun _ => map (fun _ => VNaN) (df_columns df)) w
                  | rows, _ => rows
                  end = df_rows df).
  { destruct (df_rows df), w; simpl in *; try reflexivity; discriminate. }
  rewrite Hrows. rewrite (proj2 (Nat.eqb_eq _ _) Hlen).
  destruct (existsb (String.eqb name) (df_columns df)); eexists; (split; [reflexivity|]);
    simpl; rewrite length_map, length_combine; lia.
Qed.

Section ObjectSetFacts.

Variable Obj : Type.
Variable reference_class : ParamRecord -> Result Obj.
Variable getattr : Obj -> string -> option Value.

Local Abbreviation step := (generate_step reference_class getattr).
Local Abbreviation raises := (factory_raises reference_class).

Lemma read_attrs_total (o : Obj) (attrs : list string) :
  (forall a, In a attrs -> getattr o a <> None) ->
  exists row, read_attrs getattr o attrs = Ok row /\ length row = length attrs.
Proof.
  induction attrs as [|a attrs IH]; intros H; simpl.
  - exists []. split; reflexivity.
  - destruct (getattr o a) as [v|] eqn:Ha.
    2:{ exfalso. apply (H a); [left; reflexivity | assumption]. }
    destruct IH as (row & Hrow & Hlen); [intros; apply H; right; assumption|].
    rewrite Hrow. exists (v :: row). split; simpl; [reflexivity | lia].
Qed.

Lemma read_attrs_missing (o : Obj) (attrs : list string) (a : string) :
  In a attrs -> getattr o a = None -> read_attrs getattr o attrs = Raise ValueError.
Proof.
  induction attrs as [|b attrs IH]; intros Hin Ha; simpl; [contradiction|].
  destruct Hin as [->|Hin].
  - rewrite Ha. reflexivity.
  - destruct (getattr o b); [|reflexivity]. rewrite IH by assumption. reflexivity.
Qed.

Lemma loc_append_fits (df : DataFrame) (row : Row) :
  df_columns df <> [] -> length row = length (df_columns df) ->
  loc_append df row
  = Ok {| df_columns := df_columns df; df_rows := df_rows df ++ [row] |}.
Proof.
  intros Hne Hlen. unfold loc_append.
  destruct (df_columns df) as [|c cols] eqn:E; [congruence|].
  rewrite (proj2 (Nat.eqb_eq _ _) Hlen). reflexivity.
Qed.

Lemma generate_step_factory_raises attrs st i p e :
  reference_class p = Raise e ->
  step attrs st (i, p)
  = {| gs_obj_set := gs_obj_set st; gs_df := gs_df st;
       gs_skipped := gs_skipped st ++ [i] |}.
Proof. intros H. unfold generate_step. rewrite H. reflexivity. Qed.

Lemma generate_step_row attrs st i p o row :
  reference_class p = Ok o ->
  read_attrs getattr o attrs = Ok row ->
  df_columns (gs_df st) <> [] -> length row = length (df_columns (gs_df st)) ->
  step attrs st (i, p)
  = {| gs_obj_set := gs_obj_set st ++ [o];
       gs_df := {| df_columns := df_columns (gs_df st);
                   df_rows := df_rows (gs_df st) ++ [row] |};
       gs_skipped := gs_skipped st |}.
Proof.
  intros H Hrow Hne Hlen. unfold generate_step. rewrite H, Hrow. simpl.
  rewrite loc_append_fits by assumption. reflexivity.
Qed.

Lemma generate_step_projection_fails attrs st i p o a :
  reference_class p = Ok o -> In a attrs -> getattr o a = None ->
  step attrs st (i, p)
  = {| gs_obj_set := gs_obj_set st ++ [o]; gs_df := gs_df st;
       gs_skipped := gs_skipped st ++ [i] |}.
Proof.
  intros H Hin Ha. unfold generate_step. rewrite H.
  rewrite (@read_attrs_missing o attrs a Hin Ha). reflexivity.
Qed.

(** The loop, started in any state whose table has the columns [attrs]. *)
Lemma generate_loop_from (attrs : list string) (params : list ParamRecord) :
  attrs <> [] ->
  projections_succeed reference_class getattr attrs params ->
  forall s st, df_columns (gs_df st) = attrs ->
  let final := fold_left (step attrs) (combine (seq s (length params)) params) st in
  gs_skipped final
  = gs_skipped st
    ++ map fst (filter (fun ip => raises (snd ip)) (combine (seq s (length params)) params))
  /\ df_columns (gs_df final) = attrs
  /\ length (df_rows (gs_df final))
     = length (df_rows (gs_df st)) + length (filter (fun p => negb (raises p)) params)
  /\ length (gs_obj_set final)
     = length (gs_obj_set st) + length (filter (fun p => negb (raises p)) params).
Proof.
  intros Hattrs. induction params as [|p params IH]; intros Hproj s st Hcols.
  - simpl. rewrite app_nil_r. repeat split; auto.
  - assert (Hproj' : projections_succeed reference_class getattr attrs params).
    { intros q o Hq. apply Hproj. right; assumption. }
    specialize (IH Hproj').
    cbn [length seq combine fold_left filter snd].
    destruct (reference_class p) as [o|e] eqn:Hp.
    + assert (Hr : raises p = false) by (unfold factory_raises; rewrite Hp; reflexivity).
      rewrite Hr. cbn [negb].
      destruct (@read_attrs_total o attrs) as (row & Hrow & Hlen).
      { intros a. apply (Hproj p o); [left; reflexivity | assumption]. }
      rewrite (@generate_step_row attrs st s p o row) by congruence.
      match goal with |- context [fold_left _ _ ?st1] =>
        destruct (IH (S s) st1) as (H1 & H2 & H3 & H4); [exact Hcols|] end.
      cbn [gs_skipped gs_df gs_obj_set df_rows df_columns] in H1, H3, H4.
      rewrite H1, H2, H3, H4. rewrite !length_app. cbn [length].
      repeat split; lia.
    + assert (Hr : raises p = true) by (unfold factory_raises; rewrite Hp; reflexivity).
      rewrite Hr. cbn [negb map fst].
      rewrite (@generate_step_factory_raises attrs st s p e Hp).
      match goal with |- context [fold_left _ _ ?st1] =>
        destruct (IH (S s) st1) as (H1 & H2 & H3 & H4); [exact Hcols|] end.
      cbn [gs_skipped gs_df gs_obj_set df_rows df_columns] in H1, H3, H4.
      rewrite H1, H2, H3, H4. rewrite <- app_assoc.
      repeat split; reflexivity.
Qed.

Lemma in_raising_indices (params : list ParamRecord) (i : nat) :
  In i (raising_indices reference_class params)
  <-> exists p, nth_error params i = Some p /\ raises p = true.
Proof.
  unfold raising_indices, enumerate. rewrite in_map_iff. split.
  - intros ([j p] & <- & Hin). apply filter_In in Hin as [Hin Hr].
    apply in_enumerate_from in Hin as [_ Hnth]. rewrite Nat.sub_0_r in Hnth.
    exists p. split; assumption.
  - intros (p & Hnth & Hr). exists (i, p). split; [reflexivity|].
    apply filter_In. split; [|exact Hr].
    apply in_enumerate_from. rewrite Nat.sub_0_r. split; [lia | assumption].
Qed.

Lemma length_raising_indices (params : list ParamRecord) :
  length (raising_indices reference_class params) = length (filter raises params).
Proof.
  unfold raising_indices, enumerate. rewrite length_map.
  apply filter_enumerate_from.
Qed.

Lemma loc_append_rows (df df' : DataFrame) (row : Row) :
  loc_append df row = Ok df' -> df_rows df' = df_rows df ++ [row].
Proof.
  unfold loc_append. destruct (df_columns df); [discriminate|].
  destruct (length row =? _); [|discriminate].
  intros H. injection H as <-. reflexivity.
Qed.

(** What the loop does on any input: a row is missing for every skipped
    index, an object only for the indices on which the factory raised. *)
Lemma generate_loop_accounting (attrs : list string) (params : list ParamRecord) :
  forall s st,
  let final := fold_left (step attrs) (combine (seq s (length params)) params) st in
  length (df_rows (gs_df final)) + length (gs_skipped final)
  = length (df_rows (gs_df st)) + length (gs_skipped st) + length params
  /\ length (gs_obj_set final)
     = length (gs_obj_set st) + length (filter (fun p => negb (raises p)) params).
Proof.
  induction params as [|p params IH]; intros s st.
  - simpl. split; lia.
  - cbn [length seq combine fold_left filter].
    match goal with |- context [fold_left _ _ ?st1] =>
      destruct (IH (S s) st1) as [H1 H2]; set (st' := st1) in * end.
    cbv zeta. rewrite H1, H2. clear H1 H2 IH.
    subst st'. unfold generate_step, factory_raises.
    destruct (reference_class p) as [o|e]; cbn [is_ok negb].
    + destruct (read_attrs getattr o attrs) as [row|e]; cbn [bind].
      * destruct (loc_append (gs_df st) row) as [df|e] eqn:Happ;
          cbn [gs_df gs_skipped gs_obj_set].
        -- rewrite (loc_append_rows _ _ Happ). rewrite !length_app. simpl. split; lia.
        -- rewrite !length_app. simpl. split; lia.
      * cbn [gs_df gs_skipped gs_obj_set]. rewrite !length_app. simpl. split; lia.
    + cbn [gs_df gs_skipped gs_obj_set]. rewrite !length_app. simpl. split; lia.
Qed.

(** The accounting for a whole run: the table misses one row per skipped
    index, the object list one object per raising factory call. *)
Lemma generate_loop_counts (attrs : list string) (params : list ParamRecord) :
  let st := generate_loop reference_class getattr attrs params in
  length (df_rows (gs_df st)) + length (gs_skipped st) = length params
  /\ length (gs_obj_set st) + length (filter raises params) = length params.
Proof.
  pose proof (generate_loop_accounting attrs params 0
                {| gs_obj_set := []; gs_df := empty_frame attrs; gs_skipped := [] |})
    as [H1 H2].
  pose proof (filter_length_split raises params) as Hsplit.
  cbv zeta in *. cbn [gs_skipped gs_df gs_obj_set empty_frame df_rows length] in H1, H2.
  unfold generate_loop, enumerate. split; lia.
Qed.

(** A weight sequence that is aligned with the parameter list cannot be
    stored once a record was skipped and a row was produced. *)
Lemma aligned_weights_raise_after_skip (self : ObjectSet Obj) (w : list Value) :
  value_fn self = Some w ->
  length w = length (param_list self) ->
  let st := generate_loop reference_class getattr (report_attrs self) (param_list self) in
  gs_skipped st <> [] -> df_rows (gs_df st) <> [] ->
  snd (generate_object_set reference_class getattr self) = Raise ValueError.
Proof.
  intros Hw Hlen st Hskip Hrows.
  destruct (generate_loop_counts (report_attrs self) (param_list self)) as [Hcount _].
  fold st in Hcount.
  unfold generate_object_set. cbn [snd]. fold st. rewrite Hw.
  unfold set_column.
  destruct (df_rows (gs_df st)) as [|row rows] eqn:E; [congruence|].
  assert (Hne : (length w =? length (row :: rows)) = false).
  { apply Nat.eqb_neq. destruct (gs_skipped st); [congruence|]. simpl in *. lia. }
  rewrite Hne. reflexivity.
Qed.

(** C2 (amended).  Let [K] be the number of parameter records on which the
    factory raises, the attribute projections succeeding on all other
    records.  With at least one report attribute, and no weight sequence
    attached (or one that has a weight per produced row),
    [generate_object_set] returns normally, the table has [N - K] rows,
    [skipped_indices] has [K] entries, and an index is skipped exactly when
    it is the zero-based position of a record whose factory invocation
    raised. *)
Theorem generate_object_set_skips_exactly_failures (self : ObjectSet Obj) (K : nat) :
  report_attrs self <> [] ->
  (forall w, value_fn self = Some w -> length w = length (param_list self) - K) ->
  projections_succeed reference_class getattr (report_attrs self) (param_list self) ->
  length (filter raises (param_list self)) = K ->
  let out := generate_object_set reference_class getattr self in
  exists objs df,
    snd out = Ok (objs, df)
    /\ length (df_rows df) = length (param_list self) - K
    /\ length objs = length (param_list self) - K
    /\ length (skipped_indices (fst out)) = K
    /\ forall i, In i (skipped_indices (fst out))
                 <-> exists p, nth_error (param_list self) i = Some p
                               /\ raises p = true.
Proof.
  intros Hattrs Hw Hproj HK out.
  pose proof (@generate_loop_from (report_attrs self) (param_list self) Hattrs Hproj
                0 {| gs_obj_set := []; gs_df := empty_frame (report_attrs self);
                     gs_skipped := [] |} eq_refl) as (Hskip & Hcols & Hrows & Hobjs).
  fold (enumerate (param_list self)) in Hskip, Hcols, Hrows, Hobjs.
  fold (generate_loop reference_class getattr (report_attrs self) (param_list self))
    in Hskip, Hcols, Hrows, Hobjs.
  fold (raising_indices reference_class (param_list self)) in Hskip.
  cbn [gs_skipped gs_df gs_obj_set empty_frame df_rows length app] in Hskip, Hrows, Hobjs.
  pose proof (filter_length_split raises (param_list self)) as Hsplit.
  set (st := generate_loop reference_class getattr (report_attrs self) (param_list self)) in *.
  assert (Hcount : length (df_rows (gs_df st)) = length (param_list self) - K) by lia.
  assert (Hskipped : skipped_indices (fst out) = raising_indices reference_class (param_list self)).
  { subst out. unfold generate_object_set. cbn [fst skipped_indices]. exact Hskip. }
  assert (Hres : exists df, snd out = Ok (gs_obj_set st, df)
                            /\ length (df_rows df) = length (param_list self) - K).
  { subst out. unfold generate_object_set. cbn [snd]. fold st.
    destruct (value_fn self) as [w|] eqn:Hvf.
    - destruct (@set_column_fits (gs_df st) "value_fn" w) as (df' & Hset & Hlen).
      { rewrite (Hw w eq_refl). symmetry. exact Hcount. }
      rewrite Hset. exists df'. split; [reflexivity | lia].
    - exists (gs_df st). split; [reflexivity | exact Hcount]. }
  destruct Hres as (df & Hout & Hdf).
  exists (gs_obj_set st), df.
  split; [exact Hout|]. split; [exact Hdf|]. split; [lia|].
  rewrite Hskipped. split.
  - rewrite length_raising_indices. exact HK.
  - intros i. apply in_raising_indices.
Qed.

End ObjectSetFacts.

Lemma generate_object_set_skips_exactly_failures_witness :
  let self := fresh_ObjectSet three_beams ["length"] None in
  let out := generate_object_set beam_class beam_getattr self in
  exists objs df,
    snd out = Ok (objs, df)
    /\ length (df_rows df) = 3 - 1
    /\ length objs = 3 - 1
    /\ length (skipped_indices (fst out)) = 1
    /\ forall i, In i (skipped_indices (fst out))
                 <-> exists p, nth_error three_beams i = Some p
                               /\ factory_raises beam_class p = true.
Proof.
  apply (@generate_object_set_skips_exactly_failures Beam beam_class beam_getattr
           (fresh_ObjectSet three_beams ["length"] None) 1).
  - discriminate.
  - intros w H. discriminate H.
  - intros p o Hp Ho a [<-|[]].
    destruct Hp as [<-|[<-|[<-|[]]]]; vm_compute in Ho; try discriminate Ho;
      injection Ho as <-; discriminate.
  - reflexivity.
Defined.

(** The accounting of C2 as the specification words it, for every run:
    any factory, any list of report attributes, any weight sequence. *)
Definition skips_exactly_failures_in_every_run : Prop :=
  forall (Obj : Type) (reference_class : ParamRecord -> Result Obj)
         (getattr : Obj -> string -> option Value) (self : ObjectSet Obj) (K : nat),
    projections_succeed reference_class getattr (report_attrs self) (param_list self) ->
    length (filter (factory_raises reference_class) (param_list self)) = K ->
    let out := generate_object_set reference_class getattr self in
    exists objs df,
      snd out = Ok (objs, df)
      /\ length (df_rows df) = length (param_list self) - K
      /\ length (skipped_indices (fst out)) = K
      /\ forall i, In i (skipped_indices (fst out))
                   <-> exists p, nth_error (param_list self) i = Some p
                                 /\ factory_raises reference_class p = true.

(** The run on two beams with an empty list of report attributes: no
    factory call raises and there is no attribute to project, yet both
    records are skipped and the table has no row, because pandas does not
    add a row to a frame without columns. *)
Example no_report_attribute_run :
  generate_object_set beam_class beam_getattr
    (fresh_ObjectSet [beam_of_length 1; beam_of_length 2] [] None)
  = ({| param_list := [beam_of_length 1; beam_of_length 2]; report_attrs := [];
        value_fn := None; object_set := []; object_library := empty_frame [];
        skipped_indices := [0; 1] |},
     Ok ([beam_of_length 1; beam_of_length 2], empty_frame [])).
Proof. reflexivity. Qed.

(** C2, as stated, fails: in that run [K = 0] of the two factory calls
    raise, and the table has 0 rows and [skipped_indices] 2 entries. *)
Lemma no_report_attribute_skips_every_record : ~ skips_exactly_failures_in_every_run.
Proof.
  intros H.
  destruct (H Beam beam_class beam_getattr
              (fresh_ObjectSet [beam_of_length 1; beam_of_length 2] [] None) 0)
    as (objs & df & _ & _ & Hskip & _).
  - intros p o _ _ a [].
  - reflexivity.
  - vm_compute in Hskip. discriminate Hskip.
Qed.

(** The run on [three_beams], evaluated. *)
Example three_beams_generated :
  generate_object_set beam_class beam_getattr (fresh_ObjectSet three_beams ["length"] None)
  = ({| param_list := three_beams; report_attrs := ["length"]; value_fn := None;
        object_set := []; object_library := empty_frame ["length"];
        skipped_indices := [0] |},
     Ok ([beam_of_length 1; beam_of_length 2],
         {| df_columns := ["length"]; df_rows := [[num 1]; [num 2]] |})).
Proof. reflexivity. Qed.

(** C4: a record whose factory call succeeds but whose projection fails.
    The beam built from [length = 1] has no attribute [area]; index 0 is
    skipped and contributes no row, yet its object stays in [object_set], so
    [object_set] has one element and the table none. *)
Theorem skipped_projection_keeps_object :
  exists self,
    new_ObjectSet beam_class beam_getattr [beam_of_length 1] ["length"; "area"] None
    = Ok self
    /\ skipped_indices self = [0]
    /\ object_set self = [beam_of_length 1]
    /\ df_rows (object_library self) = []
    /\ length (object_set self) <> length (df_rows (object_library self)).
Proof.
  eexists. split; [reflexivity|]. cbn. repeat split. discriminate.
Qed.

(** C6: a weight sequence aligned with the parameter list, one record
    skipped.  The table has one row and [value_fn] two entries; the column
    assignment raises [ValueError], which escapes [generate_object_set] and
    the constructor. *)
Theorem weights_with_skipped_record_raise :
  snd (generate_object_set beam_class beam_getattr
         (fresh_ObjectSet [beam_of_length 0; beam_of_length 2] ["length"]
                          (Some [num 1; num 2])))
  = Raise ValueError
  /\ new_ObjectSet beam_class beam_getattr [beam_of_length 0; beam_of_length 2]
                   ["length"] (Some [num 1; num 2])
     = Raise ValueError.
Proof. split; reflexivity. Qed.

(** ** Design space reduction *)

Lemma drop_positions_below (A : Type) (idxs : list nat) (l : list A) : forall s,
  Forall (fun j => j < s) idxs -> drop_positions s idxs l = l.
Proof.
  induction l as [|x l IH]; intros s H; simpl; [reflexivity|].
  assert (Hs : existsb (Nat.eqb s) idxs = false).
  { destruct (existsb (Nat.eqb s) idxs) eqn:E; [|reflexivity].
    apply existsb_exists in E as (j & Hj & Heq). apply Nat.eqb_eq in Heq. subst j.
    rewrite Forall_forall in H. specialize (H s Hj). lia. }
  rewrite Hs. f_equal. apply IH.
  eapply Forall_impl; [|exact H]. simpl. intros; lia.
Qed.

(** Deleting the highest position first leaves the lower positions in
    place. *)
Lemma py_del_highest (A : Type) (rest : list nat) (l : list A) : forall s i,
  i < length l ->
  Forall (fun j => j < s + i) rest ->
  exists l', py_del l i = Ok l'
             /\ length l' = length l - 1
             /\ drop_positions s rest l' = drop_positions s ((s + i) :: rest) l.
Proof.
  induction l as [|x l IH]; intros s i Hi Hrest; simpl in Hi; [lia|].
  destruct i as [|i].
  - exists l. split; [reflexivity|]. split; [simpl; lia|].
    rewrite Nat.add_0_r in *. cbn [drop_positions existsb].
    rewrite Nat.eqb_refl. cbn [orb].
    rewrite drop_positions_below by assumption.
    rewrite drop_positions_below; [reflexivity|].
    constructor; [lia|]. eapply Forall_impl; [|exact Hrest]. simpl. intros; lia.
  - destruct (IH (S s) i) as (l' & Hdel & Hlen & Hdrop); [lia| |].
    { eapply Forall_impl; [|exact Hrest]. simpl. intros; lia. }
    exists (x :: l'). cbn [py_del]. rewrite Hdel. split; [reflexivity|].
    split; [simpl; lia|].
    cbn [drop_positions existsb].
    assert (Hs : (s =? s + S i) = false) by (apply Nat.eqb_neq; lia).
    rewrite Hs. cbn [orb].
    replace (s + S i) with (S s + i) by lia.
    rewrite Hdrop. reflexivity.
Qed.

(** The deletion loop on indices in strictly descending order: exactly the
    entries at those positions are removed, from the parameter list and from
    the weights. *)
Lemma reduce_loop_drops_positions (idxs : list nat) :
  forall (params : list ParamRecord) (weights : option (list Value)),
  descending idxs ->
  Forall (fun j => j < length params) idxs ->
  (forall w, weights = Some w -> Forall (fun j => j < length w) idxs) ->
  reduce_loop idxs params weights
  = Ok (drop_positions 0 idxs params, option_map (drop_positions 0 idxs) weights).
Proof.
  induction idxs as [|i rest IH]; intros params weights Hdesc Hrange Hw.
  - simpl. rewrite drop_positions_below by constructor.
    destruct weights as [w|]; simpl; [|reflexivity].
    rewrite drop_positions_below by constructor. reflexivity.
  - destruct Hdesc as [Hlt Hdesc].
    inversion Hrange as [|? ? Hi Hrange']; subst.
    destruct (@py_del_highest _ rest params 0 i Hi Hlt) as (params' & Hdel & Hlen & Hdrop).
    cbn [reduce_loop]. rewrite Hdel. cbn [bind].
    assert (Hrest : Forall (fun j => j < length params') rest).
    { rewrite Forall_forall in Hlt |- *. intros j Hj. specialize (Hlt j Hj). simpl in Hlt. lia. }
    destruct weights as [w|].
    + specialize (Hw w eq_refl). inversion Hw as [|? ? Hiw Hw']; subst.
      destruct (@py_del_highest _ rest w 0 i Hiw Hlt) as (w' & Hdelw & Hlenw & Hdropw).
      rewrite Hdelw. cbn [bind].
      rewrite IH; [|assumption|assumption|].
      * cbn [option_map]. rewrite Hdrop, Hdropw. reflexivity.
      * intros w0 H0. injection H0 as <-.
        rewrite Forall_forall in Hlt |- *. intros j Hj. specialize (Hlt j Hj).
        simpl in Hlt. lia.
    + cbn [bind]. rewrite IH; [|assumption|assumption|discriminate].
      cbn [option_map]. rewrite Hdrop. reflexivity.
Qed.

Lemma insert_desc_lowest (x : nat) (l : list nat) :
  Forall (fun y => x < y) l -> insert_desc x l = l ++ [x].
Proof.
  induction 1 as [|y l Hy Hl IH]; simpl; [reflexivity|].
  destruct (Nat.leb_spec y x); [lia|]. rewrite IH. reflexivity.
Qed.

Lemma sorted_reverse_ascending (l : list nat) :
  ascending l -> sorted_reverse l = rev l.
Proof.
  induction l as [|x l IH]; simpl; intros H; [reflexivity|].
  destruct H as [Hx Hl]. unfold sorted_reverse in *. simpl. rewrite IH by assumption.
  apply insert_desc_lowest. apply Forall_rev. assumption.
Qed.

Lemma descending_app_lowest (l : list nat) (x : nat) :
  descending l -> Forall (fun y => x < y) l -> descending (l ++ [x]).
Proof.
  induction l as [|y l IH]; simpl; intros Hd Hx.
  - split; [constructor | exact I].
  - destruct Hd as [Hy Hd]. inversion Hx; subst. split.
    + apply Forall_app. split; [assumption | constructor; [assumption | constructor]].
    + apply IH; assumption.
Qed.

Lemma descending_rev (l : list nat) : ascending l -> descending (rev l).
Proof.
  induction l as [|x l IH]; simpl; intros H; [exact I|].
  destruct H as [Hx Hl]. apply descending_app_lowest; [apply IH; assumption|].
  apply Forall_rev. assumption.
Qed.

Lemma ascending_filter_enumerate (A : Type) (f : nat * A -> bool) (l : list A) : forall s,
  ascending (map fst (filter f (combine (seq s (length l)) l)))
  /\ Forall (fun j => s <= j < s + length l)
            (map fst (filter f (combine (seq s (length l)) l))).
Proof.
  induction l as [|x l IH]; intros s; simpl; [split; [exact I | constructor]|].
  destruct (IH (S s)) as [Hasc Hrange].
  assert (Hrange' : Forall (fun j => s <= j < s + S (length l))
                      (map fst (filter f (combine (seq (S s) (length l)) l)))).
  { eapply Forall_impl; [|exact Hrange]. simpl. intros; lia. }
  destruct (f (s, x)); simpl.
  - split; [split; [|assumption] | constructor; [lia | assumption]].
    eapply Forall_impl; [|exact Hrange]. simpl. intros; lia.
  - split; assumption.
Qed.

Lemma existsb_rev (f : nat -> bool) (l : list nat) :
  existsb f (rev l) = existsb f l.
Proof.
  induction l as [|x l IH]; simpl; [reflexivity|].
  rewrite existsb_app, IH. simpl. rewrite orb_false_r. apply orb_comm.
Qed.

Lemma drop_positions_rev (A : Type) (idxs : list nat) (l : list A) : forall s,
  drop_positions s (rev idxs) l = drop_positions s idxs l.
Proof.
  induction l as [|x l IH]; intros s; simpl; [reflexivity|].
  rewrite existsb_rev, !IH. reflexivity.
Qed.

(** What the deletion loop of [reduce_design_space] does in general: it
    removes the parameter records (and weights) whose position in
    [param_list] equals the table position of a matching row.  These are the
    records the matching rows came from only if no record before them was
    skipped. *)
Lemma reduce_loop_removes_table_positions
  (df : DataFrame) (q : list (string * Value) -> bool)
  (params : list ParamRecord) (weights : option (list Value)) :
  length (df_rows df) <= length params ->
  (forall w, weights = Some w -> length (df_rows df) <= length w) ->
  reduce_loop (sorted_reverse (query_index df q)) params weights
  = Ok (drop_positions 0 (query_index df q) params,
        option_map (drop_positions 0 (query_index df q)) weights).
Proof.
  intros Hlen Hw. unfold query_index, enumerate.
  destruct (ascending_filter_enumerate
              (fun ir => q (named_row (df_columns df) (snd ir))) (df_rows df) 0)
    as [Hasc Hrange].
  set (idxs := map fst _) in *.
  rewrite sorted_reverse_ascending by assumption.
  rewrite reduce_loop_drops_positions.
  - rewrite drop_positions_rev. destruct weights as [w|]; simpl; [|reflexivity].
    rewrite drop_positions_rev. reflexivity.
  - apply descending_rev. assumption.
  - apply Forall_rev. eapply Forall_impl; [|exact Hrange]. simpl. intros; lia.
  - intros w H. specialize (Hw w H).
    apply Forall_rev. eapply Forall_impl; [|exact Hrange]. simpl. intros; lia.
Qed.

(** C5: reduction after a generation that skipped a record.  Of
    [three_beams] the first is skipped, so the table rows 0 and 1 come from
    the records 1 and 2.  The query [length == 1] selects row 0;
    [reduce_design_space] deletes [param_list[0]], the skipped record, and
    keeps the matching record, whose row is still in the regenerated
    table.  (The deletion goes by table position, see
    [reduce_loop_removes_table_positions].) *)
Theorem reduce_after_skip_deletes_wrong_record :
  exists self self',
    new_ObjectSet beam_class beam_getattr three_beams ["length"] None = Ok self
    /\ skipped_indices self = [0]
    /\ query_index (object_library self) (length_is 1) = [0]
    /\ reduce_design_space beam_class beam_getattr self (length_is 1) = Ok self'
    /\ param_list self' = [beam_of_length 1; beam_of_length 2]
    /\ param_list self' <> [beam_of_length 0; beam_of_length 2]
    /\ df_rows (object_library self') = [[num 1]; [num 2]].
Proof.
  eexists. eexists. split; [reflexivity|]. cbn [skipped_indices object_library].
  split; [reflexivity|]. split; [reflexivity|].
  split; [vm_compute; reflexivity|].
  cbn [param_list object_library df_rows].
  split; [reflexivity|]. split; [|reflexivity].
  intros H. vm_compute in H. discriminate H.
Qed.

(** ** Rounding to the nearest float *)

Lemma round_half_even_nearest (q : Q) : nearest_even q (round_half_even q).
Proof.
  unfold nearest_even, round_half_even.
  pose proof (Qfloor_le q) as Hlo. pose proof (Qlt_floor q) as Hhi.
  rewrite inject_Z_plus in Hhi. change (inject_Z 1) with 1%Q in Hhi.
  set (f := Qfloor q) in *.
  destruct (Qcompare_spec (q - inject_Z f) (1 # 2)) as [He|Hl|Hg].
  - destruct (Z.even f) eqn:Hev.
    + split; [|intros _; exact Hev]. rewrite He. discriminate.
    + assert (Hq : (q - inject_Z (f + 1) == - (1 # 2))%Q).
      { rewrite inject_Z_plus. change (inject_Z 1) with 1%Q. lra. }
      split.
      * rewrite Hq. discriminate.
      * intros _. rewrite Z.even_add, Hev. reflexivity.
  - assert (Ha : (Qabs (q - inject_Z f) == q - inject_Z f)%Q) by (apply Qabs_pos; lra).
    split.
    + rewrite Ha. lra.
    + intros E. rewrite Ha in E. lra.
  - assert (Ha : (Qabs (q - inject_Z (f + 1)) == - (q - inject_Z (f + 1)))%Q).
    { apply Qabs_neg. rewrite inject_Z_plus. change (inject_Z 1) with 1%Q. lra. }
    rewrite inject_Z_plus in Ha. change (inject_Z 1) with 1%Q in Ha.
    split.
    + rewrite inject_Z_plus. change (inject_Z 1) with 1%Q. rewrite Ha. lra.
    + intros E. rewrite inject_Z_plus in E. change (inject_Z 1) with 1%Q in E.
      rewrite Ha in E. lra.
Qed.

Lemma to_double_comp (q q' : Q) : (q == q')%Q -> to_double q = to_double q'.
Proof.
  intros H. unfold to_double. rewrite (Qred_complete _ _ H). reflexivity.
Qed.

Lemma pow2_pos (e : Z) : (0 < pow2 e)%Q.
Proof.
  unfold pow2. destruct (0 <=? e)%Z eqn:E.
  - apply Z.leb_le in E. change 0%Q with (inject_Z 0). rewrite <- Zlt_Qlt.
    apply Z.pow_pos_nonneg; lia.
  - reflexivity.
Qed.

Lemma pow2_Qpower (e : Z) : (pow2 e == 2 ^ e)%Q.
Proof.
  unfold pow2. destruct (0 <=? e)%Z eqn:E.
  - apply Z.leb_le in E. exact (Zpower_Qpower 2 e E).
  - apply Z.leb_gt in E.
    assert (Hp : (0 < 2 ^ (- e))%Z) by (apply Z.pow_pos_nonneg; lia).
    replace e with (- (- e))%Z at 2 by lia. rewrite Qpower_opp.
    assert (Hq : (inject_Z (2 ^ (- e)) == 2 ^ (- e))%Q) by (apply (Zpower_Qpower 2); lia).
    rewrite <- Hq.
    destruct (2 ^ (- e))%Z as [|p|p] eqn:Ep; try lia.
    reflexivity.
Qed.

Lemma pow2_add (a b : Z) : (pow2 (a + b) == pow2 a * pow2 b)%Q.
Proof. rewrite !pow2_Qpower. apply Qpower_plus. discriminate. Qed.

Lemma pow2_0 : (pow2 0 == 1)%Q.
Proof. reflexivity. Qed.

Lemma pow2_le (a b : Z) : (a <= b)%Z -> (pow2 a <= pow2 b)%Q.
Proof.
  intros H. replace b with (a + (b - a))%Z by lia. rewrite pow2_add.
  assert (H1 : (1 <= pow2 (b - a))%Q).
  { unfold pow2. destruct (0 <=? b - a)%Z eqn:E; [|apply Z.leb_gt in E; lia].
    change 1%Q with (inject_Z 1). rewrite <- Zle_Qle.
    assert (0 < 2 ^ (b - a))%Z by (apply Z.pow_pos_nonneg; lia). lia. }
  pose proof (pow2_pos a). nra.
Qed.

Lemma pow2_lt_inv (a b : Z) : (pow2 a < pow2 b)%Q -> (a < b)%Z.
Proof.
  intros H. destruct (Z.lt_ge_cases a b) as [|Hge]; [assumption|].
  apply pow2_le in Hge. lra.
Qed.

Lemma ilog2_spec (a : Q) :
  (0 < a)%Q -> (pow2 (ilog2 a) <= a)%Q /\ (a < pow2 (ilog2 a + 1))%Q.
Proof.
  intros Ha. destruct a as [n d]. 
  assert (Hn : (0 < n)%Z).
  { unfold Qlt in Ha. simpl in Ha. lia. }
  unfold ilog2. cbn [Qnum Qden].
  pose proof (Z.log2_spec n Hn) as [Hn1 Hn2].
  pose proof (Z.log2_spec (Zpos d) eq_refl) as [Hd1 Hd2].
  pose proof (Z.log2_nonneg n) as Hln. pose proof (Z.log2_nonneg (Zpos d)) as Hld.
  set (ln := Z.log2 n) in *. set (ld := Z.log2 (Zpos d)) in *.
  assert (Hnd : (n # d == inject_Z n / inject_Z (Zpos d))%Q) by apply Qmake_Qdiv.
  assert (Hdpos : (0 < inject_Z (Zpos d))%Q) by reflexivity.
  assert (Pn1 : (pow2 ln <= inject_Z n)%Q).
  { unfold pow2. destruct (0 <=? ln)%Z eqn:E; [|apply Z.leb_gt in E; lia].
    rewrite <- Zle_Qle. exact Hn1. }
  assert (Pn2 : (inject_Z n < pow2 (ln + 1))%Q).
  { unfold pow2. destruct (0 <=? ln + 1)%Z eqn:E; [|apply Z.leb_gt in E; lia].
    rewrite <- Zlt_Qlt. replace (ln + 1)%Z with (Z.succ ln) by lia. exact Hn2. }
  assert (Pd1 : (pow2 ld <= inject_Z (Zpos d))%Q).
  { unfold pow2. destruct (0 <=? ld)%Z eqn:E; [|apply Z.leb_gt in E; lia].
    rewrite <- Zle_Qle. exact Hd1. }
  assert (Pd2 : (inject_Z (Zpos d) < pow2 (ld + 1))%Q).
  { unfold pow2. destruct (0 <=? ld + 1)%Z eqn:E; [|apply Z.leb_gt in E; lia].
    rewrite <- Zlt_Qlt. replace (ld + 1)%Z with (Z.succ ld) by lia. exact Hd2. }
  (* upper: a < pow2 (ln - ld + 1) ;  lower: pow2 (ln - ld - 1) <= a *)
  assert (Hup : (n # d < pow2 (ln - ld + 1))%Q).
  { rewrite Hnd. apply Qlt_shift_div_r; [exact Hdpos|].
    assert (E : (pow2 (ln + 1) == pow2 (ln - ld + 1) * pow2 ld)%Q).
    { rewrite <- pow2_add. replace (ln - ld + 1 + ld)%Z with (ln + 1)%Z by lia. reflexivity. }
    pose proof (pow2_pos (ln - ld + 1)). pose proof (pow2_pos ld). nra. }
  assert (Hlow : (pow2 (ln - ld - 1) <= n # d)%Q).
  { rewrite Hnd. apply Qle_shift_div_l; [exact Hdpos|].
    assert (E : (pow2 ln == pow2 (ln - ld - 1) * pow2 (ld + 1))%Q).
    { rewrite <- pow2_add. replace (ln - ld - 1 + (ld + 1))%Z with ln by lia. reflexivity. }
    pose proof (pow2_pos (ln - ld - 1)). pose proof (pow2_pos (ld + 1)). nra. }
  destruct (Qle_bool (pow2 (ln - ld)) (n # d)) eqn:T.
  - apply Qle_bool_iff in T. split; assumption.
  - split; [exact Hlow|]. replace (ln - ld - 1 + 1)%Z with (ln - ld)%Z by lia.
    apply Qnot_le_lt. intros C. apply Qle_bool_iff in C. congruence.
Qed.

Lemma round_half_even_bounds (q : Q) (lo hi : Z) :
  (inject_Z lo <= q)%Q -> (q <= inject_Z hi)%Q ->
  (lo <= round_half_even q <= hi)%Z.
Proof.
  intros Hlo Hhi.
  assert (Hf1 : (lo <= Qfloor q)%Z).
  { rewrite <- (Qfloor_Z lo). apply Qfloor_resp_le. exact Hlo. }
  assert (Hf2 : (Qfloor q <= hi)%Z).
  { rewrite <- (Qfloor_Z hi). apply Qfloor_resp_le. exact Hhi. }
  assert (Hup : (inject_Z (Qfloor q) < q)%Q -> (Qfloor q + 1 <= hi)%Z).
  { intros Hlt. assert (H : (inject_Z (Qfloor q) < inject_Z hi)%Q)
      by (eapply Qlt_le_trans; [exact Hlt | exact Hhi]).
    rewrite <- Zlt_Qlt in H. lia. }
  assert (Hhalf : (1 # 2 <= q - inject_Z (Qfloor q))%Q -> (inject_Z (Qfloor q) < q)%Q).
  { intros H. lra. }
  unfold round_half_even.
  destruct (Qcompare_spec (q - inject_Z (Qfloor q)) (1 # 2)) as [He|Hl|Hg].
  - destruct (Z.even (Qfloor q)); [lia|].
    split; [lia|]. apply Hup, Hhalf. rewrite He. apply Qle_refl.
  - lia.
  - split; [lia|]. apply Hup, Hhalf. apply Qlt_le_weak. exact Hg.
Qed.

(** The shape of [to_double] on a non-zero argument. *)
Lemma to_double_nonzero (q : Q) :
  ~ (q == 0)%Q ->
  let a := Qabs (Qred q) in
  let e := Z.max (ilog2 a - 52) (-1074) in
  let m := round_half_even (a / pow2 e) in
  to_double q
  = if Qle_bool (pow2 1024) (inject_Z m * pow2 e) then None
    else Some (Qred (if Qle_bool 0 (Qred q) then inject_Z m * pow2 e
                     else - (inject_Z m * pow2 e))%Q).
Proof.
  intros Hq. unfold to_double.
  destruct (Qeq_bool (Qred q) 0) eqn:E; [|reflexivity].
  apply Qeq_bool_iff in E. rewrite Qred_correct in E. contradiction.
Qed.

Lemma to_double_zero (q : Q) : (q == 0)%Q -> to_double q = Some 0%Q.
Proof. intros H. rewrite (to_double_comp H). reflexivity. Qed.

(** The exponent of the last bit and the significand. *)
Lemma significand_bounds (a : Q) :
  (0 < a)%Q ->
  let e := Z.max (ilog2 a - 52) (-1074) in
  (a < pow2 (e + 53))%Q
  /\ (e = (-1074)%Z \/ (pow2 (e + 52) <= a)%Q)
  /\ (0 <= round_half_even (a / pow2 e) <= 2 ^ 53)%Z.
Proof.
  intros Ha e. destruct (ilog2_spec Ha) as [Hlo Hhi].
  assert (Hlt : (a < pow2 (e + 53))%Q).
  { eapply Qlt_le_trans; [exact Hhi|]. apply pow2_le. unfold e. lia. }
  split; [exact Hlt|]. split.
  - unfold e. destruct (Z.max_spec (ilog2 a - 52) (-1074)) as [[_ ->]|[_ ->]].
    + left. reflexivity.
    + right. replace (ilog2 a - 52 + 52)%Z with (ilog2 a) by lia. exact Hlo.
  - pose proof (pow2_pos e) as He.
    apply round_half_even_bounds.
    + change (inject_Z 0) with 0%Q. apply Qle_shift_div_l; [exact He|]. lra.
    + apply Qle_shift_div_r; [exact He|].
      change (inject_Z (2 ^ 53)) with (pow2 53).
      rewrite <- pow2_add. replace (53 + e)%Z with (e + 53)%Z by lia. lra.
Qed.

Lemma nearest_even_opp (q : Q) (n : Z) : nearest_even q n -> nearest_even (- q) (- n).
Proof.
  unfold nearest_even. intros [H1 H2].
  assert (E : (Qabs (- q - inject_Z (- n)) == Qabs (q - inject_Z n))%Q).
  { rewrite inject_Z_opp. rewrite <- (Qabs_opp (q - inject_Z n)).
    apply Qabs_wd. ring. }
  split.
  - rewrite E. exact H1.
  - intros H. rewrite Z.even_opp. apply H2. rewrite <- E. exact H.
Qed.

Lemma nearest_even_comp (q q' : Q) (n : Z) :
  (q == q')%Q -> nearest_even q n -> nearest_even q' n.
Proof.
  unfold nearest_even. intros E [H1 H2].
  assert (E' : (Qabs (q' - inject_Z n) == Qabs (q - inject_Z n))%Q).
  { apply Qabs_wd. rewrite E. reflexivity. }
  split.
  - rewrite E'. exact H1.
  - intros H. apply H2. rewrite <- E'. exact H.
Qed.

(** [to_double q] is a float, and a nearest one: a significand [m] of at
    most 53 bits at an exponent [e] that is no lower than -1074 and is the
    exponent of the last bit of [q], with [m] the integer nearest to
    [q / 2 ^ e], the even one in a tie. *)
Lemma Qabs_pos_nonzero (x : Q) : ~ (x == 0)%Q -> (0 < Qabs x)%Q.
Proof.
  intros Hx. apply Qabs_case; intros Hs.
  - apply Qle_lteq in Hs. destruct Hs as [|E]; [assumption|].
    exfalso. apply Hx. symmetry. exact E.
  - apply Qle_lteq in Hs. destruct Hs as [Hs|E]; [lra|]. contradiction.
Qed.

(** [to_double q] is a float, and a nearest one: a significand [m] of at
    most 53 bits at an exponent [e] that is no lower than -1074 and is the
    exponent of the last bit of [q], with [m] the integer nearest to
    [q / 2 ^ e], the even one in a tie. *)
Theorem to_double_nearest (q r : Q) :
  to_double q = Some r ->
  exists m e,
    (r == inject_Z m * pow2 e)%Q
    /\ (Z.abs m <= 2 ^ 53)%Z /\ (-1074 <= e)%Z
    /\ (Qabs r < pow2 1024)%Q
    /\ (Qabs q < pow2 (e + 53))%Q
    /\ (e = (-1074)%Z \/ (pow2 (e + 52) <= Qabs q)%Q)
    /\ nearest_even (q / pow2 e) m.
Proof.
  intros H. destruct (Qeq_dec q 0) as [Hz|Hnz].
  - rewrite (to_double_zero Hz) in H. injection H as <-.
    exists 0%Z, (-1074)%Z.
    split; [reflexivity|]. split; [discriminate|]. split; [discriminate|].
    split; [reflexivity|]. split; [rewrite Hz; reflexivity|]. split; [left; reflexivity|].
    apply (@nearest_even_comp 0%Q).
    + rewrite Hz. reflexivity.
    + split; [discriminate | intros E; discriminate E].
  - rewrite (to_double_nonzero Hnz) in H. cbv zeta in H.
    assert (Hq : (Qred q == q)%Q) by apply Qred_correct.
    assert (Hnz' : ~ (Qred q == 0)%Q) by (rewrite Hq; exact Hnz).
    pose proof (Qabs_pos_nonzero Hnz') as Ha.
    destruct (significand_bounds Ha) as (Hlt & Hexp & Hm).
    cbv zeta in Hlt, Hexp, Hm.
    set (a := Qabs (Qred q)) in *.
    set (e := Z.max (ilog2 a - 52) (-1074)) in *.
    pose proof (round_half_even_nearest (a / pow2 e)) as Hn.
    set (m := round_half_even (a / pow2 e)) in *.
    pose proof (pow2_pos e) as He.
    assert (Haq : (a == Qabs q)%Q) by (unfold a; apply Qabs_wd; exact Hq).
    destruct (Qle_bool (pow2 1024) (inject_Z m * pow2 e)) eqn:Hov; [discriminate|].
    assert (Hr : (inject_Z m * pow2 e < pow2 1024)%Q).
    { apply Qnot_le_lt. intros C. apply Qle_bool_iff in C. congruence. }
    assert (Hm0 : (0 <= inject_Z m)%Q).
    { change 0%Q with (inject_Z 0). rewrite <- Zle_Qle. lia. }
    injection H as <-.
    destruct (Qle_bool 0 (Qred q)) eqn:Hs.
    + apply Qle_bool_iff in Hs. rewrite Hq in Hs.
      assert (Eq : (Qabs q == q)%Q) by (apply Qabs_pos; exact Hs).
      exists m, e. rewrite Qred_correct.
      split; [reflexivity|]. split; [lia|]. split; [unfold e; lia|].
      split; [rewrite Qabs_pos by nra; exact Hr|].
      split; [rewrite <- Haq; exact Hlt|].
      split; [destruct Hexp as [E|E]; [left; exact E | right; rewrite <- Haq; exact E]|].
      eapply nearest_even_comp; [|exact Hn]. rewrite Haq, Eq. reflexivity.
    + assert (Hneg : (q <= 0)%Q).
      { apply Qlt_le_weak, Qnot_le_lt. intros C. rewrite <- Hq in C.
        apply Qle_bool_iff in C. congruence. }
      assert (Eq : (Qabs q == - q)%Q) by (apply Qabs_neg; exact Hneg).
      exists (- m)%Z, e. rewrite Qred_correct.
      split; [rewrite inject_Z_opp; ring|].
      split; [lia|]. split; [unfold e; lia|].
      split; [rewrite Qabs_opp, Qabs_pos by nra; exact Hr|].
      split; [rewrite <- Haq; exact Hlt|].
      split; [destruct Hexp as [E|E]; [left; exact E | right; rewrite <- Haq; exact E]|].
      apply (@nearest_even_comp (- (a / pow2 e))%Q).
      * rewrite Haq, Eq. field. intros C. rewrite C in He. discriminate He.
      * apply nearest_even_opp. exact Hn.
Qed.

(** Some floats: one tenth; an integer of 54 bits, halfway between two
    floats; the smallest positive float, and half of it, which rounds to
    zero; the largest float, and the first magnitudes that round to an
    infinity. *)
Example to_double_tenth :
  to_double (1 # 10) = Some (3602879701896397 # 36028797018963968)%Q.
Proof. vm_compute. reflexivity. Qed.

Example to_double_54_bits :
  to_double (inject_Z (2 ^ 53 + 1)) = Some (inject_Z (2 ^ 53))
  /\ to_double (inject_Z (2 ^ 53 + 3)) = Some (inject_Z (2 ^ 53 + 4)).
Proof. split; vm_compute; reflexivity. Qed.

Example to_double_smallest :
  to_double (pow2 (-1074)) = Some (pow2 (-1074))
  /\ to_double (pow2 (-1075)) = Some 0%Q
  /\ to_double (3 * pow2 (-1075)) = Some (pow2 (-1073)).
Proof. repeat split; vm_compute; reflexivity. Qed.

Example to_double_largest :
  to_double (pow2 1024 - pow2 971) = Some (pow2 1024 - pow2 971)%Q
  /\ to_double (pow2 1024 - pow2 970) = None
  /\ to_double (pow2 1024) = None.
Proof. repeat split; vm_compute; reflexivity. Qed.

(** Rounding does not cross a float: between 0 and an integer below
    [2 ^ 53] the result stays between them. *)
Lemma to_double_bounds (q : Q) (hi : Z) :
  (0 <= q)%Q -> (q <= inject_Z hi)%Q -> (hi < 2 ^ 53)%Z ->
  exists r, to_double q = Some r /\ (0 <= r)%Q /\ (r <= inject_Z hi)%Q.
Proof.
  intros H0 Hhi Hsmall. destruct (Qeq_dec q 0) as [Hz|Hnz].
  - exists 0%Q. split; [apply to_double_zero; exact Hz|]. split; [discriminate|]. lra.
  - rewrite (to_double_nonzero Hnz). cbv zeta.
    assert (Hq : (Qred q == q)%Q) by apply Qred_correct.
    assert (Hnz' : ~ (Qred q == 0)%Q) by (rewrite Hq; exact Hnz).
    pose proof (Qabs_pos_nonzero Hnz') as Ha.
    assert (Haq : (Qabs (Qred q) == q)%Q).
    { rewrite (Qabs_wd _ _ Hq). apply Qabs_pos. exact H0. }
    destruct (ilog2_spec Ha) as [Hlo _].
    set (a := Qabs (Qred q)) in *.
    assert (Hk : (ilog2 a < 53)%Z).
    { apply pow2_lt_inv. eapply Qle_lt_trans; [exact Hlo|].
      rewrite Haq. eapply Qle_lt_trans; [exact Hhi|].
      change (pow2 53) with (inject_Z (2 ^ 53)). rewrite <- Zlt_Qlt. exact Hsmall. }
    set (e := Z.max (ilog2 a - 52) (-1074)) in *.
    assert (He0 : (e <= 0)%Z) by (unfold e; lia).
    pose proof (pow2_pos e) as He.
    set (P := (2 ^ (- e))%Z).
    assert (HP : (pow2 e * inject_Z P == 1)%Q).
    { assert (E : pow2 (- e) = inject_Z P).
      { unfold pow2. destruct (0 <=? - e)%Z eqn:T; [reflexivity|]. apply Z.leb_gt in T. lia. }
      rewrite <- E, <- pow2_add. replace (e + - e)%Z with 0%Z by lia. reflexivity. }
    assert (HPpos : (0 < inject_Z P)%Q).
    { change 0%Q with (inject_Z 0). rewrite <- Zlt_Qlt. apply Z.pow_pos_nonneg; lia. }
    assert (Hinv : (inject_Z P == / pow2 e)%Q).
    { apply (Qmult_inj_l _ _ (pow2 e)); [lra|].
      rewrite HP, Qmult_inv_r by lra. reflexivity. }
    assert (Hdiv : (a / pow2 e == q * inject_Z P)%Q).
    { rewrite Haq, Hinv. reflexivity. }
    destruct (@round_half_even_bounds (a / pow2 e) 0 (hi * P)) as [Hm0 Hm1].
    { rewrite Hdiv. change (inject_Z 0) with 0%Q. nra. }
    { rewrite Hdiv, inject_Z_mult. nra. }
    set (m := round_half_even (a / pow2 e)) in *.
    assert (Hm0' : (0 <= inject_Z m)%Q).
    { change 0%Q with (inject_Z 0). rewrite <- Zle_Qle. exact Hm0. }
    assert (Hm1' : (inject_Z m <= inject_Z hi * inject_Z P)%Q).
    { rewrite <- inject_Z_mult, <- Zle_Qle. exact Hm1. }
    assert (Hr0 : (0 <= inject_Z m * pow2 e)%Q) by nra.
    assert (Hr1 : (inject_Z m * pow2 e <= inject_Z hi)%Q).
    { setoid_replace (inject_Z hi) with (inject_Z hi * inject_Z P * pow2 e)%Q.
      - apply Qmult_le_compat_r; [exact Hm1' | lra].
      - rewrite <- Qmult_assoc, (Qmult_comm (inject_Z P)), HP. ring. }
    assert (Hov : Qle_bool (pow2 1024) (inject_Z m * pow2 e) = false).
    { destruct (Qle_bool (pow2 1024) (inject_Z m * pow2 e)) eqn:T; [|reflexivity].
      apply Qle_bool_iff in T.
      assert (Hbig : (inject_Z hi < pow2 1024)%Q).
      { change (pow2 1024) with (inject_Z (2 ^ 1024)). rewrite <- Zlt_Qlt.
        eapply Z.lt_trans; [exact Hsmall|]. reflexivity. }
      lra. }
    assert (Hs : Qle_bool 0 (Qred q) = true).
    { apply Qle_bool_iff. rewrite Hq. exact H0. }
    rewrite Hov, Hs. eexists. split; [reflexivity|].
    rewrite Qred_correct. split; assumption.
Qed.

Lemma f64_bounds (q : Q) (hi : Z) :
  (0 <= q)%Q -> (q <= inject_Z hi)%Q -> (hi < 2 ^ 53)%Z ->
  (0 <= f64 q)%Q /\ (f64 q <= inject_Z hi)%Q.
Proof.
  intros H0 Hhi Hsmall.
  destruct (to_double_bounds H0 Hhi Hsmall) as (r & Hr & Hr0 & Hr1).
  unfold f64. rewrite Hr. cbn [this Q2Qc]. rewrite Qred_correct.
  split; assumption.
Qed.









(** ** Verification *)

Lemma mapM_nth (A B : Type) (f : A -> Result B) (l : list A) : forall ys,
  mapM f l = Ok ys ->
  length ys = length l
  /\ forall j x, nth_error l j = Some x ->
       exists y, nth_error ys j = Some y /\ f x = Ok y.
Proof.
  induction l as [|a l IH]; intros ys H; simpl in H.
  - injection H as <-. split; [reflexivity|]. intros [|j] x Hx; discriminate.
  - destruct (f a) as [b|e] eqn:Hfa; [|discriminate]. simpl in H.
    destruct (mapM f l) as [bs|e] eqn:Hm; [|discriminate]. simpl in H.
    injection H as <-. destruct (IH bs eq_refl) as [Hlen Hnth].
    split; [simpl; congruence|].
    intros [|j] x Hx; simpl in Hx.
    + injection Hx as <-. exists b. split; [reflexivity | assumption].
    + apply Hnth. assumption.
Qed.

Lemma in_remove_nth (A : Type) (x : A) (l : list A) : forall j,
  In x (remove_nth j l) -> In x l.
Proof.
  induction l as [|y l IH]; intros j H; simpl in *; [destruct j; assumption|].
  destruct j as [|j]; [right; assumption|].
  destruct H as [->|H]; [left; reflexivity | right; apply (IH j); assumption].
Qed.



Lemma py_eq_nan_r (v : Value) : py_eq v VNaN = false.
Proof. destruct v; reflexivity. Qed.

Lemma nth_error_combine_cons (rows : list Row) : forall (keys : list Value) r k row,
  nth_error (map (fun ir => fst ir :: snd ir) (combine keys rows)) r = Some (k :: row) ->
  nth_error keys r = Some k /\ nth_error rows r = Some row.
Proof.
  induction rows as [|row0 rows IH]; intros [|k0 keys] [|r] k row H;
    simpl in H; try discriminate.
  - injection H as <- <-. split; reflexivity.
  - exact (IH keys r k row H).
Qed.

Section VerifiedObjectLibraryFacts.

Variable float_of_str : string -> option PyFloat.

Local Abbreviation error_calc' := (error_calc float_of_str).
Local Abbreviation check_cell' := (check_cell float_of_str).
Local Abbreviation check_row' := (check_row float_of_str).
Local Abbreviation check_error' := (check_error float_of_str).

(** What [check_error] returns, row by row. *)
Lemma check_error_rows (lib ver : DataFrame) (key : string) (res : DataFrame) :
  check_error' lib ver key = Ok res ->
  exists lib_df verify_df,
    set_index lib key = Ok lib_df
    /\ set_index ver key = Ok verify_df
    /\ df_columns res = key :: if_columns lib_df
    /\ if_index verify_df = keys_of ver key
    /\ (forall param, In param (if_columns verify_df) -> In param (df_columns ver))
    /\ forall r k row, nth_error (df_rows res) r = Some (k :: row) ->
         nth_error (if_index lib_df) r = Some k
         /\ check_row' lib_df verify_df k = Ok row.
Proof.
  unfold check_error. intros H.
  destruct (set_index lib key) as [lib_df|e] eqn:Hlib; [|discriminate]. simpl in H.
  destruct (set_index ver key) as [verify_df|e] eqn:Hver; [|discriminate]. simpl in H.
  destruct (mapM (check_row' lib_df verify_df) (if_index lib_df)) as [rows|e] eqn:Hrows;
    [|discriminate]. simpl in H. injection H as <-.
  assert (Hcells : forall r k row,
             nth_error (df_rows (reset_index key
                {| if_index := if_index lib_df; if_columns := if_columns lib_df;
                   if_rows := rows |})) r = Some (k :: row) ->
             nth_error (if_index lib_df) r = Some k
             /\ check_row' lib_df verify_df k = Ok row).
  { intros r k row Hr. cbn [reset_index df_rows if_index if_rows] in Hr.
    apply nth_error_combine_cons in Hr as [Hk Hrow].
    split; [exact Hk|].
    destruct (mapM_nth _ _ Hrows) as [_ Hnth].
    destruct (Hnth r k Hk) as (row' & Hrow' & Hcheck).
    rewrite Hrow in Hrow'. injection Hrow' as <-. exact Hcheck. }
  exists lib_df, verify_df. split; [reflexivity|]. split; [reflexivity|].
  split; [reflexivity|].
  split; [|split; [|exact Hcells]].
  - unfold set_index in Hver. unfold keys_of, get_column.
    destruct (index_of key (df_columns ver)) as [j|]; [|discriminate].
    injection Hver as <-. reflexivity.
  - unfold set_index in Hver.
    destruct (index_of key (df_columns ver)) as [j|]; [|discriminate].
    injection Hver as <-. intros param. apply in_remove_nth.
Qed.



Lemma cell_at_key (res : DataFrame) (r : nat) (k : Value) :
  cell_at res r 0 = Some k ->
  exists row, nth_error (df_rows res) r = Some (k :: row).
Proof.
  unfold cell_at. destruct (nth_error (df_rows res) r) as [[|k' row]|]; try discriminate.
  simpl. intros H. injection H as ->. exists row. reflexivity.
Qed.

Lemma loc_scalar_present (f : IndexedFrame) (i : Value) (param : string) (v : Value) :
  loc_scalar f i param = Ok v ->
  has_key i f = true /\ has_column param (if_columns f) = true.
Proof.
  unfold loc_scalar. intros H.
  assert (Hin : In v (loc_cells f i param)).
  { destruct (loc_cells f i param) as [|v0 [|? ?]]; try discriminate.
    injection H as ->. left; reflexivity. }
  unfold loc_cells in Hin. apply in_flat_map in Hin as ([i' row] & Hrow & Hv).
  cbn [fst snd] in Hv. destruct (Value_eqb i' i) eqn:Hi; [|contradiction].
  apply Value_eqb_eq in Hi. subst i'. split.
  - unfold has_key. apply existsb_exists. exists i. split.
    + apply in_combine_l in Hrow. assumption.
    + apply Value_eqb_eq. reflexivity.
  - apply in_map_iff in Hv as ([c x] & _ & Hc). apply filter_In in Hc as [Hc Heq].
    cbn [fst] in Heq. apply String.eqb_eq in Heq. subst c.
    unfold has_column. apply existsb_exists. exists param. split.
    + apply in_combine_l in Hc. assumption.
    + apply String.eqb_refl.
Qed.











(** C10.  The guard of [check_error] that compares the two cell values with
    [np.nan] is false for all values, so whenever both tables hold a cell
    for the key and the column, the pair is passed to [error_calc]; and a
    text generated value whose reference cell holds NaN gives the per-cell
    result ["not match"], not NaN. *)
Theorem nan_reference_is_not_detected :
  (forall verify_value generated_value,
     py_eq verify_value VNaN || py_eq generated_value VNaN = false)
  /\ (forall lib_df verify_df i param v g,
        loc_scalar verify_df i param = Ok v ->
        loc_scalar lib_df i param = Ok g ->
        check_cell' lib_df verify_df i param = error_calc' g v)
  /\ (forall lib ver key res lib_df verify_df r j k param s,
        check_error' lib ver key = Ok res ->
        set_index lib key = Ok lib_df ->
        set_index ver key = Ok verify_df ->
        cell_at res r 0 = Some k ->
        nth_error (df_columns res) (S j) = Some param ->
        loc_scalar lib_df k param = Ok (VStr s) ->
        loc_scalar verify_df k param = Ok VNaN ->
        cell_at res r (S j) = Some (VStr "not match")
        /\ cell_at res r (S j) <> Some VNaN).
Proof.
  assert (Hguard : forall v g, py_eq v VNaN || py_eq g VNaN = false).
  { intros v g. rewrite !py_eq_nan_r. reflexivity. }
  assert (Hcell : forall lib_df verify_df i param v g,
            loc_scalar verify_df i param = Ok v ->
            loc_scalar lib_df i param = Ok g ->
            check_cell' lib_df verify_df i param = error_calc' g v).
  { intros lib_df verify_df i param v g Hv Hg. unfold check_cell.
    destruct (loc_scalar_present _ _ _ Hv) as [_ Hcol]. rewrite Hcol, Hv, Hg.
    cbn [bind]. rewrite Hguard. reflexivity. }
  split; [exact Hguard|]. split; [exact Hcell|].
  intros lib ver key res lib_df verify_df r j k param s Hres Hlib Hver Hk Hparam Hg Hv.
  destruct (check_error_rows _ _ _ Hres)
    as (lib_df' & verify_df' & Hlib' & Hver' & Hcols & _ & _ & Hrows).
  rewrite Hlib in Hlib'. injection Hlib' as <-.
  rewrite Hver in Hver'. injection Hver' as <-.
  destruct (cell_at_key _ _ Hk) as (row & Hr).
  destruct (Hrows r k row Hr) as [_ Hrow].
  rewrite Hcols in Hparam. cbn [nth_error] in Hparam.
  unfold check_row in Hrow.
  destruct (loc_scalar_present _ _ _ Hv) as [Hkey _]. rewrite Hkey in Hrow.
  destruct (mapM_nth _ _ Hrow) as [_ Hnth].
  destruct (Hnth j param Hparam) as (c & Hc & Hcheck).
  rewrite (Hcell _ _ _ _ _ _ Hv Hg) in Hcheck.
  unfold error_calc in Hcheck. cbn [is_str py_eq] in Hcheck. injection Hcheck as <-.
  unfold cell_at. rewrite Hr. cbn [nth_error]. rewrite Hc.
  split; [reflexivity | discriminate].
Qed.

End VerifiedObjectLibraryFacts.




(** A second pair outside the stated cases: a NaN generated value against
    the reference 0 gives NaN, not 100. *)
Example nan_against_zero_reference :
  error_calc no_numeric_text VNaN (num 0) = Ok VNaN
  /\ error_calc no_numeric_text VNaN (num 0) <> Ok (num 100).
Proof. split; [reflexivity | discriminate]. Qed.

(** One third below the reference: [-66.667] percent, as the float nearest
    to that decimal. *)
Example error_calc_rounds_to_three_decimals :
  error_calc no_numeric_text (num 1) (num 3) = Ok (VNum (f64 (-66667 # 1000)))
  /\ f64 (-66667 # 1000) = Q2Qc (-2345636534046163 # 35184372088832).
Proof. split; vm_compute; reflexivity. Qed.

(** One part in 200000 above the reference: the difference 1 and the
    quotient are floats, the product by 100 is the float next above 0.0005,
    and the result is 0.001. *)
Example error_calc_above_half_a_thousandth :
  f64_sub (FNum (Q2Qc 200001)) (FNum (Q2Qc 200000)) = Ok (FNum (Q2Qc 1))
  /\ f64_div (FNum (Q2Qc 1)) (FNum (Q2Qc 200000))
     = Ok (FNum (Q2Qc (5902958103587057 # 1180591620717411303424)))
  /\ f64_mul (FNum (Q2Qc (5902958103587057 # 1180591620717411303424))) (FNum (Q2Qc 100))
     = Ok (FNum (Q2Qc (1152921504606847 # 2305843009213693952)))
  /\ (5 # 10000 < 1152921504606847 # 2305843009213693952)%Q
  /\ error_calc no_numeric_text (num 200001) (num 200000)
     = Ok (VNum (Q2Qc (1152921504606847 # 1152921504606846976))).
Proof. repeat split; vm_compute; reflexivity. Qed.

Example bolts_check_error :
  check_error no_numeric_text bolts_generated bolts_reference "name" = Ok bolts_result.
Proof. reflexivity. Qed.

Example bolts_error_report :
  error_report bolts_generated bolts_reference bolts_result = Ok bolts_report.
Proof. vm_compute. reflexivity. Qed.


Example grades_nan_check_error :
  check_error no_numeric_text grades_generated grades_reference_nan "name"
  = Ok {| df_columns := ["name"; "grade"];
          df_rows := [[VStr "A"; VStr "match"]; [VStr "B"; VStr "not match"]] |}.
Proof. reflexivity. Qed.

Lemma nan_reference_is_not_detected_witness :
  cell_at {| df_columns := ["name"; "grade"];
             df_rows := [[VStr "A"; VStr "match"]; [VStr "B"; VStr "not match"]] |} 1 1
  = Some (VStr "not match").
Proof.
  destruct (nan_reference_is_not_detected no_numeric_text) as (_ & _ & H).
  refine (proj1 (H grades_generated grades_reference_nan "name" _
           {| if_index := [VStr "A"; VStr "B"]; if_columns := ["grade"];
              if_rows := [[VStr "x"]; [VStr "y"]] |}
           {| if_index := [VStr "A"; VStr "B"]; if_columns := ["grade"];
              if_rows := [[VStr "x"]; [VNaN]] |}
           1 0 (VStr "B") "grade" "y" grades_nan_check_error
           eq_refl eq_refl eq_refl eq_refl eq_refl eq_refl)).
Defined.

(** C8: the type sample is the cell of the first row, missing or not.  The
    key [A] of the first generated row is absent from the reference table,
    so the column [grade] of the per-cell result is [[NaN, "match"]].  Its
    first non-missing cell is text, but the code samples the NaN of row 0,
    takes the numeric branch, and [sum] over the text cell raises
    [TypeError]: neither the report nor the object is produced. *)
Theorem type_sample_is_first_cell_even_if_missing :
  exists res,
    check_error no_numeric_text grades_generated grades_reference "name" = Ok res
    /\ get_column res "grade" = Ok [VNaN; VStr "match"]
    /\ first_non_missing [VNaN; VStr "match"] = Some (VStr "match")
    /\ spec_column_is_text [VNaN; VStr "match"] = Some true
    /\ column_is_text [VNaN; VStr "match"] = Ok false
    /\ error_report grades_generated grades_reference res = Raise TypeError
    /\ new_VerifiedObjectLibrary no_numeric_text grades_generated grades_reference "name"
       = Raise TypeError.
Proof.
  eexists. split; [reflexivity|]. repeat split.
Qed.

(* ================================================================== *)
(** * Part III. Further properties of the code                         *)
(* ================================================================== *)

(** ** Dicts *)

Section AssocFacts.

Context {K V : Type} (eqb : K -> K -> bool).
Hypothesis eqb_eq : forall a b, eqb a b = true <-> a = b.

Lemma assoc_eqb_refl (a : K) : eqb a a = true.
Proof. apply eqb_eq. reflexivity. Qed.

Lemma assoc_eqb_neq (a b : K) : a <> b -> eqb a b = false.
Proof.
  intros H. destruct (eqb a b) eqn:E; [|reflexivity].
  apply eqb_eq in E. contradiction.
Qed.

Lemma assoc_get_absent (k : K) (d : list (K * V)) :
  ~ In k (map fst d) -> assoc_get eqb k d = None.
Proof.
  induction d as [|[k' v] d IH]; simpl; intros H; [reflexivity|].
  rewrite assoc_eqb_neq by (intros ->; apply H; left; reflexivity).
  apply IH. intros Hin. apply H. right; assumption.
Qed.

Lemma assoc_get_present (k : K) (d : list (K * V)) :
  In k (map fst d) -> exists v, assoc_get eqb k d = Some v /\ In (k, v) d.
Proof.
  induction d as [|[k' v] d IH]; simpl; intros H; [contradiction|].
  destruct (eqb k k') eqn:E.
  - apply eqb_eq in E. subst. exists v. split; [reflexivity | left; reflexivity].
  - destruct H as [->|H]; [rewrite assoc_eqb_refl in E; discriminate|].
    destruct (IH H) as (w & Hw & Hin). exists w. split; [assumption | right; assumption].
Qed.

Lemma assoc_get_unique (k : K) (v : V) (d : list (K * V)) :
  NoDup (map fst d) -> In (k, v) d -> assoc_get eqb k d = Some v.
Proof.
  induction d as [|[k' v'] d IH]; simpl; intros Hnd Hin; [contradiction|].
  inversion Hnd as [|? ? Hk Hnd']; subst.
  destruct Hin as [H|H].
  - injection H as -> ->. rewrite assoc_eqb_refl. reflexivity.
  - rewrite assoc_eqb_neq; [apply IH; assumption|].
    intros ->. apply Hk. apply in_map_iff. exists (k', v). split; [reflexivity | assumption].
Qed.

Lemma assoc_set_fresh (k : K) (v : V) (d : list (K * V)) :
  ~ In k (map fst d) -> assoc_set eqb k v d = d ++ [(k, v)].
Proof.
  induction d as [|[k' v'] d IH]; simpl; intros H; [reflexivity|].
  rewrite assoc_eqb_neq by (intros ->; apply H; left; reflexivity).
  rewrite IH; [reflexivity|]. intros Hin. apply H. right; assumption.
Qed.

(** Assigning to an existing key of a dict with unique keys changes that
    entry in place. *)
Lemma assoc_set_present (k : K) (v : V) (d : list (K * V)) :
  NoDup (map fst d) -> In k (map fst d) ->
  assoc_set eqb k v d = map (fun kv => if eqb (fst kv) k then (fst kv, v) else kv) d.
Proof.
  induction d as [|[k' v'] d IH]; simpl; intros Hnd Hin; [contradiction|].
  inversion Hnd as [|? ? Hk Hnd']; subst.
  destruct (eqb k k') eqn:E.
  - apply eqb_eq in E. subst k'. rewrite assoc_eqb_refl. f_equal.
    symmetry. rewrite <- (map_id d) at 2. apply map_ext_in. intros [k1 v1] H1. simpl.
    rewrite assoc_eqb_neq; [reflexivity|].
    intros ->. apply Hk. apply in_map_iff. exists (k, v1). split; [reflexivity | assumption].
  - assert (Hne : eqb k' k = false).
    { apply assoc_eqb_neq. intros ->. rewrite assoc_eqb_refl in E. discriminate. }
    rewrite Hne. f_equal. apply IH; [assumption|].
    destruct Hin as [->|Hin]; [rewrite assoc_eqb_refl in E; discriminate | assumption].
Qed.

(** Collecting entries with pairwise different keys keeps them all, in
    order. *)
Lemma assoc_fold_fresh (X : Type) (key : X -> K) (val : X -> V) (xs : list X) :
  forall acc,
  NoDup (map fst acc ++ map key xs) ->
  fold_left (fun d x => assoc_set eqb (key x) (val x) d) xs acc
  = acc ++ map (fun x => (key x, val x)) xs.
Proof.
  induction xs as [|x xs IH]; intros acc Hnd; simpl.
  - rewrite app_nil_r. reflexivity.
  - simpl in Hnd.
    assert (Hk : ~ In (key x) (map fst acc)).
    { intros Hin. apply NoDup_remove_2 in Hnd. apply Hnd.
      apply in_or_app. left; assumption. }
    rewrite assoc_set_fresh by assumption.
    rewrite IH.
    + rewrite <- app_assoc. reflexivity.
    + rewrite map_app. simpl. rewrite <- app_assoc. simpl. assumption.
Qed.

Lemma assoc_of_pairs_unique (pairs : list (K * V)) :
  NoDup (map fst pairs) -> assoc_of_pairs eqb pairs = pairs.
Proof.
  intros Hnd. unfold assoc_of_pairs.
  rewrite (assoc_fold_fresh fst snd pairs []) by exact Hnd.
  simpl. rewrite <- (map_id pairs) at 2. apply map_ext. intros [k v]. reflexivity.
Qed.

End AssocFacts.

Lemma NoDup_fst_combine_gen (K V : Type) (ks : list K) : forall (vs : list V),
  NoDup ks -> NoDup (map fst (combine ks vs)).
Proof.
  induction ks as [|k ks IH]; intros vs Hnd; simpl; [constructor|].
  destruct vs as [|v vs]; simpl; [constructor|].
  inversion Hnd as [|? ? Hk Hnd']; subst. constructor.
  - intros Hin. apply Hk. apply in_map_iff in Hin as ([k' v'] & Heq & Hin).
    simpl in Heq. subst. apply in_combine_l in Hin. assumption.
  - apply IH. assumption.
Qed.

Lemma in_combine_nth (K V : Type) (ks : list K) : forall (vs : list V) i k v,
  nth_error ks i = Some k -> nth_error vs i = Some v -> In (k, v) (combine ks vs).
Proof.
  induction ks as [|k0 ks IH]; intros [|v0 vs] [|i] k v Hk Hv; simpl in *;
    try discriminate.
  - injection Hk as ->. injection Hv as ->. left; reflexivity.
  - right. apply (IH vs i); assumption.
Qed.

Lemma mapM_total (A B : Type) (f : A -> B) (l : list A) :
  mapM (fun x => Ok (f x)) l = Ok (map f l).
Proof.
  induction l as [|x l IH]; simpl; [reflexivity|]. rewrite IH. reflexivity.
Qed.

(** ** Replacing a design variable *)

(** X1.  [replace_variable] on a name that is not a design variable raises
    [KeyError], whatever the operation. *)
Theorem replace_variable_unknown_name
  (self : DesignVariableSet) (var_name : string) (op : Value -> Result Value) :
  ~ In var_name (map fst (design_var_sets self)) ->
  replace_variable self var_name op = Raise KeyError.
Proof.
  intros H. unfold replace_variable.
  rewrite (assoc_get_absent String.eqb String.eqb_eq) by assumption. reflexivity.
Qed.

Lemma replace_variable_unknown_name_witness :
  replace_variable (new_DesignVariableSet beam_vars) "width" (fun v => Ok v)
  = Raise KeyError.
Proof.
  apply replace_variable_unknown_name. simpl.
  intros [H|[H|[]]]; discriminate H.
Defined.

Lemma expansion_rec_cons (k : string) (vals : list Value) (rest : DesignVarSets) :
  expansion_rec ((k, vals) :: rest)
  = flat_map (fun y => map (cons (k, y)) (expansion_rec rest)) vals.
Proof.
  unfold expansion_rec. simpl.
  induction vals as [|y vals IH]; simpl; [reflexivity|].
  rewrite map_app, IH. f_equal. rewrite !map_map. reflexivity.
Qed.

Lemma flat_map_map (A B C : Type) (h : A -> B) (F : B -> list C) (l : list A) :
  flat_map F (map h l) = flat_map (fun x => F (h x)) l.
Proof.
  induction l as [|x l IH]; simpl; [reflexivity|]. rewrite IH. reflexivity.
Qed.

Lemma map_flat_map (A B C : Type) (g : B -> C) (F : A -> list B) (l : list A) :
  map g (flat_map F l) = flat_map (fun x => map g (F x)) l.
Proof.
  induction l as [|x l IH]; simpl; [reflexivity|]. rewrite map_app, IH. reflexivity.
Qed.

(** Transforming the candidates of the variables called [k] transforms the
    entry [k] of every record of the expansion. *)
Lemma expansion_rec_update (k : string) (f : Value -> Value) (data : DesignVarSets) :
  expansion_rec
    (map (fun kv => if String.eqb (fst kv) k then (fst kv, map f (snd kv)) else kv) data)
  = map (update_entry k f) (expansion_rec data).
Proof.
  induction data as [|[k0 vals] data IH]; [reflexivity|].
  cbn [map fst snd]. rewrite expansion_rec_cons.
  destruct (String.eqb k0 k) eqn:E; cbn [fst snd]; rewrite expansion_rec_cons, IH.
  - rewrite flat_map_map, map_flat_map. apply flat_map_ext. intros y.
    rewrite !map_map. apply map_ext. intros r. cbn [update_entry map fst snd].
    rewrite E. reflexivity.
  - rewrite map_flat_map. apply flat_map_ext. intros y.
    rewrite !map_map. apply map_ext. intros r. cbn [update_entry map fst snd].
    rewrite E. reflexivity.
Qed.

(** X2.  Replacing a declared variable by an operation that does not raise
    keeps the variable names and their order, and the rebuilt expansion is
    the previous expansion with the operation applied to the entry of that
    variable in every record (same length, same order). *)
Theorem replace_variable_expansion
  (data : DesignVarSets) (var_name : string) (f : Value -> Value) :
  dict_keys_unique data ->
  In var_name (map fst data) ->
  exists self',
    replace_variable (new_DesignVariableSet data) var_name (fun v => Ok (f v)) = Ok self'
    /\ map fst (design_var_sets self') = map fst data
    /\ dvs_param_list self'
       = map (update_entry var_name f) (dvs_param_list (new_DesignVariableSet data))
    /\ length (dvs_param_list self')
       = length (dvs_param_list (new_DesignVariableSet data)).
Proof.
  intros Hkeys Hin. unfold replace_variable. cbn [design_var_sets new_DesignVariableSet].
  destruct (assoc_get_present String.eqb String.eqb_eq var_name data Hin)
    as (vals & Hget & _).
  rewrite Hget, mapM_total. cbn [bind].
  rewrite (assoc_set_present String.eqb String.eqb_eq var_name (map f vals) data Hkeys Hin).
  set (data' := map _ data).
  assert (Hdata' : data'
            = map (fun kv => if String.eqb (fst kv) var_name
                             then (fst kv, map f (snd kv)) else kv) data).
  { subst data'. apply map_ext_in. intros [k0 vals0] H0. cbn [fst snd].
    destruct (String.eqb_spec k0 var_name) as [->|_]; [|reflexivity].
    f_equal. f_equal.
    pose proof (assoc_get_unique String.eqb String.eqb_eq var_name vals0 data Hkeys H0) as H1.
    congruence. }
  assert (Hfst : map fst data' = map fst data).
  { rewrite Hdata', map_map. apply map_ext. intros [k0 vals0]. cbn [fst snd].
    destruct (String.eqb k0 var_name); reflexivity. }
  assert (Hexp : read_design_variable_set data'
                 = map (update_entry var_name f) (read_design_variable_set data)).
  { rewrite (read_design_variable_set_rec Hkeys).
    rewrite read_design_variable_set_rec by (unfold dict_keys_unique; rewrite Hfst; exact Hkeys).
    rewrite Hdata'. apply expansion_rec_update. }
  eexists. split; [reflexivity|]. cbn [design_var_sets dvs_param_list new_DesignVariableSet].
  split; [exact Hfst|]. split; [exact Hexp|].
  rewrite Hexp. apply length_map.
Qed.

Lemma replace_variable_expansion_witness :
  exists self',
    replace_variable (new_DesignVariableSet beam_vars) "material"
                     (fun v => Ok (VStr "timber")) = Ok self'
    /\ nth_error (dvs_param_list self') 1
       = Some [("length", num 1); ("material", VStr "timber")].
Proof.
  destruct (@replace_variable_expansion beam_vars "material" (fun _ => VStr "timber")
              beam_vars_keys_unique)
    as (self' & Hrep & _ & Hexp & _).
  - simpl. right; left; reflexivity.
  - exists self'. split; [exact Hrep|]. rewrite Hexp. reflexivity.
Defined.

(** ** The value function *)

Lemma nth_error_descending_weights (N i : nat) :
  i < N ->
  nth_error (descending_weights N) i
  = Some (Q2Qc ((inject_Z (Z.of_nat N) - inject_Z (Z.of_nat i)) / inject_Z (Z.of_nat N))).
Proof.
  intros H. unfold descending_weights.
  rewrite nth_error_map, nth_error_seq.
  destruct (Nat.ltb_spec i N); [reflexivity | lia].
Qed.

Lemma inject_nat_lt (a b : nat) :
  a < b -> (inject_Z (Z.of_nat a) < inject_Z (Z.of_nat b))%Q.
Proof. intros H. rewrite <- Zlt_Qlt. lia. Qed.


Lemma weight_decreasing (N i j : nat) :
  i < j -> j < N ->
  ((inject_Z (Z.of_nat N) - inject_Z (Z.of_nat j)) / inject_Z (Z.of_nat N)
   < (inject_Z (Z.of_nat N) - inject_Z (Z.of_nat i)) / inject_Z (Z.of_nat N))%Q.
Proof.
  intros Hij HjN.
  assert (HN : (0 < inject_Z (Z.of_nat N))%Q) by (apply (@inject_nat_lt 0 N); lia).
  pose proof (inject_nat_lt Hij) as Hlt.
  unfold Qdiv. apply Qmult_lt_compat_r; [apply Qinv_lt_0_compat; exact HN|].
  apply (Qplus_lt_l _ _ (inject_Z (Z.of_nat i) + inject_Z (Z.of_nat j))).
  ring_simplify. apply (proj2 (Qplus_lt_r _ _ _)). exact Hlt.
Qed.

(** The value function of a mapping with unique names lists the variables
    in declaration order, each with the dict built from its candidates. *)
Lemma create_value_function_entries (data : DesignVarSets) :
  dict_keys_unique data ->
  create_value_function (new_DesignVariableSet data)
  = map (fun kv => (fst kv,
                    assoc_of_pairs Value_eqb
                      (combine (snd kv) (descending_weights (length (snd kv))))))
        data.
Proof.
  intros Hkeys. unfold create_value_function. cbn [design_var_sets new_DesignVariableSet].
  rewrite (assoc_fold_fresh String.eqb String.eqb_eq fst
             (fun kv => assoc_of_pairs Value_eqb
                          (combine (snd kv) (descending_weights (length (snd kv)))))
             data []); [reflexivity | exact Hkeys].
Qed.

Lemma create_value_function_lookup (data : DesignVarSets) (k : string)
  (vals : list Value) (i : nat) (v : Value) :
  dict_keys_unique data -> In (k, vals) data -> NoDup vals ->
  nth_error vals i = Some v ->
  exists d,
    assoc_get String.eqb k (create_value_function (new_DesignVariableSet data)) = Some d
    /\ assoc_get Value_eqb v d
       = Some (Q2Qc ((inject_Z (Z.of_nat (length vals)) - inject_Z (Z.of_nat i))
                     / inject_Z (Z.of_nat (length vals)))).
Proof.
  intros Hkeys Hin Hnd Hv.
  rewrite create_value_function_entries by assumption.
  eexists. split.
  - apply (assoc_get_unique String.eqb String.eqb_eq).
    + rewrite map_map. cbn [fst]. exact Hkeys.
    + apply in_map_iff. exists (k, vals). split; [reflexivity | exact Hin].
  - cbn [snd].
    rewrite (assoc_of_pairs_unique Value_eqb Value_eqb_eq)
      by (apply NoDup_fst_combine_gen; exact Hnd).
    apply (assoc_get_unique Value_eqb Value_eqb_eq).
    + apply NoDup_fst_combine_gen. exact Hnd.
    + apply in_combine_nth with (i := i); [exact Hv|].
      apply nth_error_descending_weights.
      apply nth_error_Some. congruence.
Qed.



(** X4.  Descending preference: of two candidates of the same variable
    (pairwise different values), the one listed earlier has the strictly
    larger weight. *)
Theorem create_value_function_descending (data : DesignVarSets) (k : string)
  (vals : list Value) (i j : nat) (vi vj : Value) :
  dict_keys_unique data -> In (k, vals) data -> NoDup vals ->
  nth_error vals i = Some vi -> nth_error vals j = Some vj -> i < j ->
  exists d wi wj,
    assoc_get String.eqb k (create_value_function (new_DesignVariableSet data)) = Some d
    /\ assoc_get Value_eqb vi d = Some wi
    /\ assoc_get Value_eqb vj d = Some wj
    /\ (wj < wi)%Qc.
Proof.
  intros Hkeys Hin Hnd Hvi Hvj Hij.
  destruct (@create_value_function_lookup data k vals i vi Hkeys Hin Hnd Hvi) as (d & Hd & Hwi).
  destruct (@create_value_function_lookup data k vals j vj Hkeys Hin Hnd Hvj) as (d' & Hd' & Hwj).
  assert (d' = d) by congruence. subst d'.
  assert (Hj : j < length vals) by (apply nth_error_Some; congruence).
  exists d. eexists. eexists. split; [exact Hd|]. split; [exact Hwi|]. split; [exact Hwj|].
  unfold Qclt. cbn [this Q2Qc]. rewrite !Qred_correct.
  apply weight_decreasing; assumption.
Qed.

Lemma create_value_function_descending_witness :
  exists d wi wj,
    assoc_get String.eqb "material"
      (create_value_function (new_DesignVariableSet beam_vars)) = Some d
    /\ assoc_get Value_eqb (VStr "steel") d = Some wi
    /\ assoc_get Value_eqb (VStr "alu") d = Some wj
    /\ (wj < wi)%Qc.
Proof.
  apply (@create_value_function_descending beam_vars "material"
           [VStr "steel"; VStr "alu"] 0 1 (VStr "steel") (VStr "alu")
           beam_vars_keys_unique).
  - right; left; reflexivity.
  - constructor; [intros [H|[]]; discriminate H|]. constructor; [intros []|constructor].
  - reflexivity.
  - reflexivity.
  - lia.
Defined.

(** ** Generated tables *)

Lemma set_column_rectangular (df df' : DataFrame) (name : string) (w : list Value) :
  rectangular df -> set_column df name w = Ok df' -> rectangular df'.
Proof.
  unfold rectangular, set_column. intros Hrect.
  set (rows := match df_rows df, w with
               | [], _ :: _ => map (fun _ => map (fun _ => VNaN) (df_columns df)) w
               | rows, _ => rows
               end).
  assert (Hrows : Forall (fun row => length row = length (df_columns df)) rows).
  { subst rows. destruct (df_rows df) as [|r0 rs] eqn:E.
    - destruct w as [|v w]; [constructor|].
      apply Forall_forall. intros row Hin. apply in_map_iff in Hin as (x & <- & _).
      apply length_map.
    - destruct w; exact Hrect. }
  destruct (length w =? length rows); [|discriminate].
  destruct (existsb (String.eqb name) (df_columns df)); intros H; injection H as <-;
    cbn [df_rows df_columns]; apply Forall_forall; intros row Hin;
    apply in_map_iff in Hin as ([r v] & <- & Hin); apply in_combine_l in Hin;
    rewrite Forall_forall in Hrows; specialize (Hrows r Hin); cbn [fst snd].
  - unfold put_cell. rewrite length_map, length_combine. lia.
  - rewrite !length_app. simpl. lia.
Qed.

Lemma filter_none (A : Type) (f : A -> bool) (l : list A) :
  (forall x, In x l -> f x = false) -> filter f l = [].
Proof.
  induction l as [|x l IH]; intros H; simpl; [reflexivity|].
  rewrite (H x) by (left; reflexivity). apply IH. intros y Hy. apply H. right; assumption.
Qed.

Section ObjectSetMoreFacts.

Variable Obj : Type.
Variable reference_class : ParamRecord -> Result Obj.
Variable getattr : Obj -> string -> option Value.

Local Abbreviation step := (generate_step reference_class getattr).
Local Abbreviation raises := (factory_raises reference_class).
Local Abbreviation objects := (produced_objects reference_class).
Local Abbreviation row_of := (attribute_row getattr).

Lemma read_attrs_row (o : Obj) (attrs : list string) :
  (forall a, In a attrs -> getattr o a <> None) ->
  read_attrs getattr o attrs = Ok (row_of attrs o).
Proof.
  induction attrs as [|a attrs IH]; intros H; simpl; [reflexivity|].
  destruct (getattr o a) as [v|] eqn:Ha.
  - rewrite IH by (intros; apply H; right; assumption). reflexivity.
  - exfalso. apply (H a); [left; reflexivity | assumption].
Qed.

(** The loop keeps objects and rows side by side when no projection
    fails. *)
Lemma generate_loop_rows_from (attrs : list string) (params : list ParamRecord) :
  attrs <> [] ->
  projections_succeed reference_class getattr attrs params ->
  forall s st, df_columns (gs_df st) = attrs ->
  let final := fold_left (step attrs) (combine (seq s (length params)) params) st in
  gs_obj_set final = gs_obj_set st ++ objects params
  /\ df_columns (gs_df final) = attrs
  /\ df_rows (gs_df final) = df_rows (gs_df st) ++ map (row_of attrs) (objects params).
Proof.
  intros Hattrs. induction params as [|p params IH]; intros Hproj s st Hcols.
  - simpl. rewrite !app_nil_r. repeat split; auto.
  - assert (Hproj' : projections_succeed reference_class getattr attrs params).
    { intros q o Hq. apply Hproj. right; assumption. }
    specialize (IH Hproj').
    cbn [length seq combine fold_left]. unfold produced_objects. cbn [flat_map].
    fold (objects params).
    destruct (reference_class p) as [o|e] eqn:Hp.
    + assert (Hrow : read_attrs getattr o attrs = Ok (row_of attrs o)).
      { apply read_attrs_row. intros a. apply (Hproj p o); [left; reflexivity | assumption]. }
      rewrite (@generate_step_row Obj reference_class getattr attrs st s p o
                 (row_of attrs o) Hp Hrow)
        by (rewrite Hcols; first [assumption | unfold attribute_row; rewrite length_map; reflexivity]).
      match goal with |- context [fold_left _ _ ?st1] =>
        destruct (IH (S s) st1) as (H1 & H2 & H3); [exact Hcols|] end.
      cbn [gs_df gs_obj_set df_rows df_columns] in H1, H3.
      rewrite H1, H2, H3. cbn [app map]. rewrite <- !app_assoc. repeat split.
    + rewrite (@generate_step_factory_raises Obj reference_class getattr attrs st s p e Hp).
      match goal with |- context [fold_left _ _ ?st1] =>
        destruct (IH (S s) st1) as (H1 & H2 & H3); [exact Hcols|] end.
      cbn [gs_df gs_obj_set df_rows df_columns] in H1, H3.
      rewrite H1, H2, H3. repeat split.
Qed.

(** X5.  When no attribute projection fails (at least one report attribute,
    no weight sequence), the objects returned by [generate_object_set] are
    the factory results of the records on which the factory did not raise,
    in input order, and row [r] of the table holds the report attributes of
    the object at position [r]. *)
Theorem generated_rows_align_with_objects (self : ObjectSet Obj) :
  value_fn self = None ->
  report_attrs self <> [] ->
  projections_succeed reference_class getattr (report_attrs self) (param_list self) ->
  exists objs df,
    snd (generate_object_set reference_class getattr self) = Ok (objs, df)
    /\ objs = objects (param_list self)
    /\ df_columns df = report_attrs self
    /\ df_rows df = map (row_of (report_attrs self)) objs
    /\ forall r o, nth_error objs r = Some o ->
         nth_error (df_rows df) r = Some (row_of (report_attrs self) o).
Proof.
  intros Hvf Hattrs Hproj.
  pose proof (@generate_loop_rows_from (report_attrs self) (param_list self) Hattrs Hproj
                0 {| gs_obj_set := []; gs_df := empty_frame (report_attrs self);
                     gs_skipped := [] |} eq_refl) as (Hobjs & Hcols & Hrows).
  cbn [gs_df gs_obj_set empty_frame df_rows app] in Hobjs, Hrows.
  unfold generate_object_set. cbn [snd]. rewrite Hvf.
  unfold generate_loop, enumerate.
  eexists. eexists. split; [reflexivity|].
  split; [exact Hobjs|]. split; [exact Hcols|].
  split; [rewrite Hrows, Hobjs; reflexivity|].
  intros r o Hr. rewrite Hrows, <- Hobjs. rewrite nth_error_map, Hr. reflexivity.
Qed.

(** The loop keeps the table rectangular, on every input. *)
Lemma generate_loop_rectangular (attrs : list string) (params : list (nat * ParamRecord)) :
  forall st, rectangular (gs_df st) ->
  rectangular (gs_df (fold_left (step attrs) params st)).
Proof.
  induction params as [|[i p] params IH]; intros st Hst; [exact Hst|].
  cbn [fold_left]. apply IH. unfold generate_step.
  destruct (reference_class p) as [o|e]; [|exact Hst].
  destruct (read_attrs getattr o attrs) as [row|e]; cbn [bind]; [|exact Hst].
  unfold loc_append. destruct (df_columns (gs_df st)) as [|c cols] eqn:Hc; [exact Hst|].
  destruct (length row =? length (c :: cols)) eqn:Hlen; [|exact Hst].
  cbn [gs_df]. unfold rectangular in *. cbn [df_rows df_columns].
  apply Forall_app. split; [rewrite <- Hc; exact Hst|].
  constructor; [apply Nat.eqb_eq; exact Hlen | constructor].
Qed.

(** X6.  Every table that [generate_object_set] returns is rectangular: each
    row has exactly one cell per column, with or without the [value_fn]
    column and whatever records were skipped. *)
Theorem generate_object_set_rectangular (self : ObjectSet Obj)
  (objs : list Obj) (df : DataFrame) :
  snd (generate_object_set reference_class getattr self) = Ok (objs, df) ->
  rectangular df.
Proof.
  unfold generate_object_set. cbn [snd].
  assert (Hloop : rectangular
            (gs_df (generate_loop reference_class getattr (report_attrs self)
                                  (param_list self)))).
  { unfold generate_loop. apply generate_loop_rectangular. constructor. }
  destruct (value_fn self) as [w|].
  - destruct (set_column _ "value_fn" w) as [df'|e] eqn:Hset; [|discriminate].
    cbn [bind]. intros H. injection H as _ <-.
    exact (@set_column_rectangular _ _ _ _ Hloop Hset).
  - intros H. injection H as _ <-. exact Hloop.
Qed.

(** ** The name dictionary *)

Lemma get_column_unknown (df : DataFrame) (name : string) :
  ~ In name (df_columns df) -> get_column df name = Raise KeyError.
Proof.
  intros H. unfold get_column.
  assert (Hidx : forall cols, ~ In name cols -> index_of name cols = None).
  { induction cols as [|c cols IH]; simpl; intros Hc; [reflexivity|].
    destruct (String.eqb_spec c name) as [->|_]; [exfalso; apply Hc; left; reflexivity|].
    rewrite IH; [reflexivity|]. intros Hin. apply Hc. right; assumption. }
  rewrite Hidx by assumption. reflexivity.
Qed.

(** X7.  [make_name_dict] raises [KeyError] for a name that is not a column
    of the table; and when the cells of the key column are pairwise
    different, looking up the key of row [r] returns the object at position
    [r] of [object_set]. *)
Theorem make_name_dict_lookup (self : ObjectSet Obj) (index_name : string) :
  (~ In index_name (df_columns (object_library self)) ->
   make_name_dict self index_name = Raise KeyError)
  /\ (forall keys r k o,
        get_column (object_library self) index_name = Ok keys ->
        NoDup keys ->
        nth_error keys r = Some k ->
        nth_error (object_set self) r = Some o ->
        exists d, make_name_dict self index_name = Ok d
                  /\ assoc_get Value_eqb k d = Some o).
Proof.
  split.
  - intros H. unfold make_name_dict. rewrite get_column_unknown by assumption. reflexivity.
  - intros keys r k o Hkeys Hnd Hk Ho. unfold make_name_dict. rewrite Hkeys. cbn [bind].
    eexists. split; [reflexivity|].
    rewrite (assoc_of_pairs_unique Value_eqb Value_eqb_eq)
      by (apply NoDup_fst_combine_gen; exact Hnd).
    apply (assoc_get_unique Value_eqb Value_eqb_eq).
    + apply NoDup_fst_combine_gen. exact Hnd.
    + apply in_combine_nth with (i := r); assumption.
Qed.

(** ** Reduction of a design space without skipped records *)

Lemma objects_all_succeed (attrs : list string) (params : list ParamRecord) :
  (forall p, In p params -> raises p = false) ->
  map (row_of attrs) (objects params)
  = map (record_row reference_class getattr attrs) params.
Proof.
  induction params as [|p params IH]; intros H; [reflexivity|].
  unfold produced_objects, record_row. cbn [flat_map map].
  fold (objects params).
  assert (Hp : raises p = false) by (apply H; left; reflexivity).
  unfold factory_raises in Hp.
  destruct (reference_class p) as [o|e]; [|discriminate].
  cbn [app map]. f_equal. apply IH. intros q Hq. apply H. right; assumption.
Qed.

Lemma drop_positions_ignore_lower (A : Type) (j : nat) (idxs : list nat) (l : list A) :
  forall s, j < s -> drop_positions s (j :: idxs) l = drop_positions s idxs l.
Proof.
  induction l as [|x l IH]; intros s Hj; simpl; [reflexivity|].
  assert (Hs : (s =? j) = false) by (apply Nat.eqb_neq; lia).
  rewrite Hs. cbn [orb]. rewrite !IH by lia. reflexivity.
Qed.

Lemma existsb_eqb_below (s : nat) (idxs : list nat) :
  Forall (fun j => s < j) idxs -> existsb (Nat.eqb s) idxs = false.
Proof.
  induction 1 as [|j idxs Hj _ IH]; simpl; [reflexivity|].
  rewrite IH. assert (Hs : (s =? j) = false) by (apply Nat.eqb_neq; lia).
  rewrite Hs. reflexivity.
Qed.

(** Deleting at the positions of the matching rows of a table that has one
    row per record, in order, keeps the records whose row does not match. *)
Lemma drop_positions_query (A : Type) (h : A -> Row) (g : Row -> bool) (l : list A) :
  forall s,
  drop_positions s
    (map fst (filter (fun ir => g (snd ir))
                     (combine (seq s (length (map h l))) (map h l)))) l
  = filter (fun x => negb (g (h x))) l.
Proof.
  induction l as [|x l IH]; intros s; [reflexivity|].
  cbn [map length seq combine filter snd].
  destruct (ascending_filter_enumerate (fun ir => g (snd ir)) (map h l) (S s))
    as [_ Hrange].
  destruct (g (h x)) eqn:Hg; cbn [negb map fst drop_positions existsb].
  - rewrite Nat.eqb_refl. cbn [orb].
    rewrite drop_positions_ignore_lower by lia. apply IH.
  - rewrite existsb_eqb_below.
    + f_equal. apply IH.
    + eapply Forall_impl; [|exact Hrange]. simpl. intros; lia.
Qed.

Lemma filter_map_commute (A B : Type) (h : A -> B) (g : B -> bool) (l : list A) :
  filter g (map h l) = map h (filter (fun x => g (h x)) l).
Proof.
  induction l as [|x l IH]; simpl; [reflexivity|].
  destruct (g (h x)); simpl; rewrite IH; reflexivity.
Qed.

(** Construction when every record yields a row. *)
Lemma new_ObjectSet_all_succeed (params : list ParamRecord) (attrs : list string) :
  attrs <> [] ->
  (forall p, In p params -> raises p = false) ->
  projections_succeed reference_class getattr attrs params ->
  exists self,
    new_ObjectSet reference_class getattr params attrs None = Ok self
    /\ param_list self = params /\ report_attrs self = attrs
    /\ value_fn self = None
    /\ object_library self
       = {| df_columns := attrs;
            df_rows := map (record_row reference_class getattr attrs) params |}
    /\ skipped_indices self = [].
Proof.
  intros Hattrs Hok Hproj.
  pose proof (@generate_loop_rows_from attrs params Hattrs Hproj
                0 {| gs_obj_set := []; gs_df := empty_frame attrs; gs_skipped := [] |}
                eq_refl) as (Hobjs & Hcols & Hrows).
  pose proof (@generate_loop_from Obj reference_class getattr attrs params Hattrs Hproj
                0 {| gs_obj_set := []; gs_df := empty_frame attrs; gs_skipped := [] |}
                eq_refl) as (Hskip & _).
  cbn [gs_df gs_obj_set gs_skipped empty_frame df_rows app] in Hobjs, Hrows, Hskip.
  assert (Hnone : filter (fun ip : nat * ParamRecord => raises (snd ip))
                         (combine (seq 0 (length params)) params) = []).
  { apply filter_none. intros [i p] Hin. cbn [snd].
    apply in_combine_r in Hin. exact (Hok p Hin). }
  rewrite Hnone in Hskip. cbn [map] in Hskip.
  unfold new_ObjectSet, assign_generated, generate_object_set.
  cbn [value_fn param_list report_attrs bind fst snd skipped_indices
       object_set object_library].
  unfold generate_loop, enumerate.
  eexists. split; [reflexivity|].
  cbn [param_list report_attrs value_fn object_library skipped_indices].
  repeat split; [|exact Hskip].
  rewrite <- objects_all_succeed by assumption. rewrite <- Hrows.
  destruct (gs_df _) as [cols rows] eqn:E. cbn [df_columns df_rows] in *. congruence.
Qed.

(** X8.  On an object set built from records that all yield a row (no
    factory call raises, no projection fails, no weights),
    [reduce_design_space] keeps exactly the parameter records whose row does
    not satisfy the query, in order; the regenerated table is the old table
    without the matching rows, so no row of it satisfies the query, and
    nothing is skipped. *)
Theorem reduce_design_space_removes_matches
  (params : list ParamRecord) (attrs : list string)
  (q : list (string * Value) -> bool) :
  attrs <> [] ->
  (forall p, In p params -> raises p = false) ->
  projections_succeed reference_class getattr attrs params ->
  exists self self',
    new_ObjectSet reference_class getattr params attrs None = Ok self
    /\ reduce_design_space reference_class getattr self q = Ok self'
    /\ param_list self'
       = filter (fun p => negb (q (named_row attrs
                                     (record_row reference_class getattr attrs p))))
                params
    /\ df_rows (object_library self')
       = filter (fun row => negb (q (named_row attrs row)))
                (df_rows (object_library self))
    /\ Forall (fun row => q (named_row attrs row) = false)
              (df_rows (object_library self'))
    /\ skipped_indices self' = [].
Proof.
  intros Hattrs Hok Hproj.
  destruct (new_ObjectSet_all_succeed Hattrs Hok Hproj)
    as (self & Hnew & Hparams & Hrattrs & Hvf & Hlib & Hskip).
  set (h := record_row reference_class getattr attrs) in *.
  set (keep := fun p => negb (q (named_row attrs (h p)))).
  assert (Hsub : forall p, In p (filter keep params) -> In p params).
  { intros p Hp. apply filter_In in Hp. tauto. }
  destruct (@new_ObjectSet_all_succeed (filter keep params) attrs Hattrs)
    as (self' & Hnew' & Hparams' & _ & _ & Hlib' & Hskip').
  { intros p Hp. apply Hok, Hsub, Hp. }
  { intros p o Hp. apply Hproj, Hsub, Hp. }
  fold h in Hlib'.
  exists self. exists self'. split; [exact Hnew|].
  assert (Hred : reduce_design_space reference_class getattr self q = Ok self').
  { unfold reduce_design_space. rewrite Hparams, Hvf.
    rewrite reduce_loop_removes_table_positions;
      [|rewrite Hlib; cbn [df_rows]; rewrite length_map; lia | discriminate].
    cbn [bind fst snd option_map].
    assert (Hdrop : drop_positions 0 (query_index (object_library self) q) params
                    = filter keep params).
    { rewrite Hlib. unfold query_index, enumerate. cbn [df_rows df_columns].
      apply (drop_positions_query h (fun row => q (named_row attrs row)) params 0). }
    rewrite Hdrop, Hrattrs.
    unfold new_ObjectSet, assign_generated in Hnew' |- *.
    unfold generate_object_set in Hnew' |- *.
    cbn [value_fn param_list report_attrs bind fst snd skipped_indices
         object_set object_library] in Hnew' |- *.
    exact Hnew'. }
  split; [exact Hred|]. split; [exact Hparams'|].
  rewrite Hlib', Hlib. cbn [df_rows].
  assert (Hrows : map h (filter keep params)
                  = filter (fun row => negb (q (named_row attrs row))) (map h params)).
  { symmetry. apply filter_map_commute. }
  split; [exact Hrows|]. split; [|exact Hskip'].
  rewrite Hrows. apply Forall_forall. intros row Hrow.
  apply filter_In in Hrow as [_ Hrow]. apply negb_true_iff in Hrow. exact Hrow.
Qed.

(** ** Weights stay aligned *)

Lemma py_del_length (A : Type) (l : list A) : forall i l',
  py_del l i = Ok l' -> S (length l') = length l.
Proof.
  induction l as [|x l IH]; intros i l' H; simpl in H; [discriminate|].
  destruct i as [|i].
  - injection H as <-. reflexivity.
  - destruct (py_del l i) as [l0|e] eqn:E; [|discriminate].
    cbn [bind] in H. injection H as <-. simpl. rewrite (IH i l0 E). reflexivity.
Qed.

Lemma reduce_loop_lockstep (idxs : list nat) :
  forall params w out,
  reduce_loop idxs params (Some w) = Ok out ->
  length w = length params ->
  exists w', snd out = Some w' /\ length w' = length (fst out).
Proof.
  induction idxs as [|i idxs IH]; intros params w out H Hlen; cbn [reduce_loop] in H.
  - injection H as <-. exists w. split; [reflexivity | exact Hlen].
  - destruct (py_del params i) as [params'|e] eqn:Hp; [|discriminate]. cbn [bind] in H.
    destruct (py_del w i) as [w1|e] eqn:Hw; [|discriminate]. cbn [bind] in H.
    apply (IH params' w1 out H).
    apply py_del_length in Hp. apply py_del_length in Hw. lia.
Qed.

(** X9.  [reduce_design_space] shrinks [value_fn] in lockstep with
    [param_list]: if the two have the same length before a reduction that
    returns, they have the same length after it. *)
Theorem reduce_design_space_keeps_weights_aligned
  (self self' : ObjectSet Obj) (q : list (string * Value) -> bool) (w : list Value) :
  reduce_design_space reference_class getattr self q = Ok self' ->
  value_fn self = Some w ->
  length w = length (param_list self) ->
  exists w', value_fn self' = Some w' /\ length w' = length (param_list self').
Proof.
  unfold reduce_design_space. intros H Hw Hlen. rewrite Hw in H.
  destruct (reduce_loop _ (param_list self) (Some w)) as [out|e] eqn:Hloop; [|discriminate].
  cbn [bind] in H.
  destruct (@reduce_loop_lockstep _ _ _ _ Hloop Hlen) as (w' & Hout & Hlen').
  unfold assign_generated, generate_object_set in H.
  cbn [value_fn param_list report_attrs skipped_indices] in H.
  match type of H with
  | bind ?r _ = _ => destruct r as [res|e]; [|discriminate]
  end.
  cbn [bind] in H. injection H as <-. cbn [value_fn param_list].
  exists w'. split; assumption.
Qed.

End ObjectSetMoreFacts.

(** *** The statements above on concrete beams *)

Lemma beams_projections (params : list ParamRecord) :
  projections_succeed beam_class beam_getattr ["length"] params.
Proof.
  intros p o _ Ho a [<-|[]]. unfold beam_class in Ho. unfold beam_getattr.
  destruct (dict_get p "length") as [v|] eqn:Hv; [|discriminate Ho].
  destruct (Value_eqb v (num 0)); [discriminate Ho|].
  injection Ho as <-. rewrite Hv. discriminate.
Defined.

Lemma two_beams_do_not_raise (p : ParamRecord) :
  In p [beam_of_length 1; beam_of_length 2] -> factory_raises beam_class p = false.
Proof. intros [<-|[<-|[]]]; reflexivity. Defined.

Lemma generated_rows_align_with_objects_witness :
  exists objs df,
    snd (generate_object_set beam_class beam_getattr
           (fresh_ObjectSet three_beams ["length"] None)) = Ok (objs, df)
    /\ objs = [beam_of_length 1; beam_of_length 2]
    /\ df_rows df = map (attribute_row beam_getattr ["length"]) objs.
Proof.
  destruct (@generated_rows_align_with_objects Beam beam_class beam_getattr
              (fresh_ObjectSet three_beams ["length"] None))
    as (objs & df & Hout & Hobjs & _ & Hrows & _).
  - reflexivity.
  - discriminate.
  - apply beams_projections.
  - exists objs, df. split; [exact Hout|]. split; [exact Hobjs | exact Hrows].
Defined.

Example weighted_beams_constructed :
  new_ObjectSet beam_class beam_getattr [beam_of_length 1; beam_of_length 2]
                ["length"] (Some [num 1; num 2])
  = Ok weighted_beams.
Proof. reflexivity. Qed.

Example weighted_beams_reduction :
  reduce_design_space beam_class beam_getattr weighted_beams (length_is 1)
  = Ok weighted_beams_reduced.
Proof. vm_compute. reflexivity. Qed.

Lemma generate_object_set_rectangular_witness :
  rectangular (object_library weighted_beams).
Proof.
  apply (@generate_object_set_rectangular Beam beam_class beam_getattr
           (fresh_ObjectSet [beam_of_length 1; beam_of_length 2] ["length"]
                            (Some [num 1; num 2]))
           [beam_of_length 1; beam_of_length 2]).
  reflexivity.
Defined.

Lemma num_1_2_distinct : NoDup [num 1; num 2].
Proof.
  constructor; [|constructor; [intros [] | constructor]].
  intros [H|[]]. vm_compute in H. discriminate H.
Defined.

Lemma make_name_dict_lookup_witness :
  exists d, make_name_dict weighted_beams "length" = Ok d
            /\ assoc_get Value_eqb (num 2) d = Some (beam_of_length 2).
Proof.
  apply (proj2 (make_name_dict_lookup weighted_beams "length")
           [num 1; num 2] 1 (num 2) (beam_of_length 2)).
  - reflexivity.
  - exact num_1_2_distinct.
  - reflexivity.
  - reflexivity.
Defined.

Lemma reduce_design_space_removes_matches_witness :
  exists self self',
    new_ObjectSet beam_class beam_getattr [beam_of_length 1; beam_of_length 2]
                  ["length"] None = Ok self
    /\ reduce_design_space beam_class beam_getattr self (length_is 1) = Ok self'
    /\ param_list self' = [beam_of_length 2]
    /\ Forall (fun row => length_is 1 (named_row ["length"] row) = false)
              (df_rows (object_library self')).
Proof.
  destruct (@reduce_design_space_removes_matches Beam beam_class beam_getattr
              [beam_of_length 1; beam_of_length 2] ["length"] (length_is 1))
    as (self & self' & Hnew & Hred & Hparams & _ & Hnone & _).
  - discriminate.
  - exact two_beams_do_not_raise.
  - apply beams_projections.
  - exists self, self'. split; [exact Hnew|]. split; [exact Hred|].
    split; [rewrite Hparams; reflexivity | exact Hnone].
Defined.

Lemma reduce_design_space_keeps_weights_aligned_witness :
  exists w', value_fn weighted_beams_reduced = Some w'
             /\ length w' = length (param_list weighted_beams_reduced).
Proof.
  apply (@reduce_design_space_keeps_weights_aligned Beam beam_class beam_getattr
           weighted_beams weighted_beams_reduced (length_is 1) [num 1; num 2]).
  - exact weighted_beams_reduction.
  - reflexivity.
  - reflexivity.
Defined.

(** ** Verification: errors and shape of the result *)

Unset Implicit Arguments.

Lemma index_of_absent (name : string) (cols : list string) :
  ~ In name cols -> index_of name cols = None.
Proof.
  induction cols as [|c cols IH]; simpl; intros Hc; [reflexivity|].
  destruct (String.eqb_spec c name) as [->|_]; [exfalso; apply Hc; left; reflexivity|].
  rewrite IH; [reflexivity|]. intros Hin. apply Hc. right; assumption.
Qed.

Lemma index_of_present (name : string) (cols : list string) :
  In name cols ->
  exists j, index_of name cols = Some j /\ nth_error cols j = Some name.
Proof.
  induction cols as [|c cols IH]; simpl; intros Hin; [contradiction|].
  destruct (String.eqb_spec c name) as [->|Hne].
  - exists 0. split; reflexivity.
  - destruct Hin as [->|Hin]; [congruence|].
    destruct (IH Hin) as (j & Hj & Hnth). exists (S j). rewrite Hj. split; [reflexivity | exact Hnth].
Qed.

Lemma in_remove_nth_other (x : string) (l : list string) : forall j,
  In x l -> nth_error l j <> Some x -> In x (remove_nth j l).
Proof.
  induction l as [|y l IH]; intros j Hin Hj; simpl in *; [contradiction|].
  destruct j as [|j]; simpl in *.
  - destruct Hin as [->|Hin]; [congruence | assumption].
  - destruct Hin as [->|Hin]; [left; reflexivity | right; apply IH; assumption].
Qed.

Lemma mapM_raises (A B : Type) (f : A -> Result B) (e : Exn) (l : list A) :
  (forall x, In x l -> f x = Raise e \/ exists y, f x = Ok y) ->
  (exists x, In x l /\ f x = Raise e) ->
  mapM f l = Raise e.
Proof.
  induction l as [|a l IH]; intros Hall (x & Hx & Hfx); [contradiction|].
  cbn [mapM]. destruct (Hall a (or_introl eq_refl)) as [Ha | (y & Ha)]; rewrite Ha;
    [reflexivity|]. cbn [bind].
  destruct Hx as [->|Hx]; [congruence|].
  rewrite IH; [reflexivity | | exists x; split; assumption].
  intros z Hz. apply Hall. right; assumption.
Qed.



Section VerificationMoreFacts.

Variable float_of_str : string -> option PyFloat.

Local Abbreviation error_calc' := (error_calc float_of_str).
Local Abbreviation check_cell' := (check_cell float_of_str).
Local Abbreviation check_row' := (check_row float_of_str).
Local Abbreviation check_error' := (check_error float_of_str).

(** X10.  When the key column is missing from the generated table or from
    the reference table, [check_error] and the constructor raise
    [KeyError]. *)
Theorem check_error_unknown_key (lib ver : DataFrame) (key : string) :
  ~ In key (df_columns lib) \/ ~ In key (df_columns ver) ->
  check_error' lib ver key = Raise KeyError
  /\ new_VerifiedObjectLibrary float_of_str lib ver key = Raise KeyError.
Proof.
  intros H.
  assert (Hc : check_error' lib ver key = Raise KeyError).
  { unfold check_error, set_index. destruct H as [H|H].
    - rewrite (index_of_absent _ _ H). reflexivity.
    - destruct (index_of key (df_columns lib)); [|reflexivity].
      cbn [bind]. rewrite (index_of_absent _ _ H). reflexivity. }
  split; [exact Hc|]. unfold new_VerifiedObjectLibrary. rewrite Hc. reflexivity.
Qed.

(** The per-cell result, spelled out. *)
Lemma check_error_result (lib ver : DataFrame) (key : string) (res : DataFrame) :
  check_error' lib ver key = Ok res ->
  exists j lib_df verify_df rows,
    index_of key (df_columns lib) = Some j
    /\ set_index lib key = Ok lib_df
    /\ set_index ver key = Ok verify_df
    /\ if_index lib_df = map (fun row => nth j row VNaN) (df_rows lib)
    /\ if_columns lib_df = remove_nth j (df_columns lib)
    /\ mapM (check_row' lib_df verify_df) (if_index lib_df) = Ok rows
    /\ res = {| df_columns := key :: if_columns lib_df;
                df_rows := map (fun ir => fst ir :: snd ir)
                               (combine (if_index lib_df) rows) |}.
Proof.
  unfold check_error. intros H.
  destruct (set_index lib key) as [lib_df|e] eqn:Hlib; [|discriminate]. cbn [bind] in H.
  destruct (set_index ver key) as [verify_df|e] eqn:Hver; [|discriminate]. cbn [bind] in H.
  destruct (mapM (check_row' lib_df verify_df) (if_index lib_df)) as [rows|e] eqn:Hrows;
    [|discriminate]. cbn [bind] in H. injection H as <-.
  unfold set_index in Hlib.
  destruct (index_of key (df_columns lib)) as [j|] eqn:Hj; [|discriminate].
  exists j, lib_df, verify_df, rows.
  injection Hlib as <-. cbn [if_index if_columns] in *.
  repeat split. exact Hrows.
Qed.

Lemma check_row_length (lib_df verify_df : IndexedFrame) (k : Value) (row : Row) :
  check_row' lib_df verify_df k = Ok row -> length row = length (if_columns lib_df).
Proof.
  unfold check_row. destruct (has_key k verify_df); intros H.
  - apply mapM_nth in H as [H _]. exact H.
  - injection H as <-. apply length_map.
Qed.

(** X11.  The per-cell result that [check_error] returns has the key column
    first, followed by the other columns of the generated table in their
    order; it has one row per generated row, with the generated keys in the
    same order; and it is rectangular. *)
Theorem check_error_shape (lib ver : DataFrame) (key : string) (res : DataFrame) :
  check_error' lib ver key = Ok res ->
  (exists j, index_of key (df_columns lib) = Some j
             /\ df_columns res = key :: remove_nth j (df_columns lib))
  /\ length (df_rows res) = length (df_rows lib)
  /\ get_column res key = Ok (keys_of lib key)
  /\ rectangular res.
Proof.
  intros H.
  destruct (check_error_result _ _ _ _ H)
    as (j & lib_df & verify_df & rows & Hj & _ & _ & Hidx & Hcols & Hrows & ->).
  destruct (mapM_nth _ _ Hrows) as [Hlen Hnth].
  cbn [df_columns df_rows]. split; [|split; [|split]].
  - exists j. rewrite Hcols. split; [exact Hj | reflexivity].
  - rewrite length_map, length_combine, Hlen, Nat.min_id, Hidx. apply length_map.
  - unfold get_column, keys_of, get_column. cbn [df_columns df_rows index_of].
    rewrite String.eqb_refl, Hj. f_equal. rewrite <- Hidx.
    clear - Hlen. revert rows Hlen.
    induction (if_index lib_df) as [|k ks IH]; intros [|row rows] Hlen;
      simpl in *; try discriminate; [reflexivity|].
    f_equal. apply IH. lia.
  - unfold rectangular. cbn [df_columns df_rows]. apply Forall_forall.
    intros row Hin. apply in_map_iff in Hin as ([k r] & <- & Hin). cbn [fst snd length].
    f_equal. apply In_nth_error in Hin as (n & Hn).
    assert (Hk : nth_error (if_index lib_df) n = Some k /\ nth_error rows n = Some r).
    { clear - Hn. revert rows n Hn.
      induction (if_index lib_df) as [|k0 ks IH]; intros [|r0 rows] [|n] Hn;
        simpl in *; try discriminate.
      - injection Hn as -> ->. split; reflexivity.
      - apply IH. exact Hn. }
    destruct Hk as [Hk Hr]. destruct (Hnth n k Hk) as (r' & Hr' & Hrow).
    assert (r' = r) by congruence. subst r'.
    exact (@check_row_length _ _ _ _ Hrow).
Qed.


(** X14.  Verifying a generated table without rows raises
    [ZeroDivisionError]: [check_error] returns an empty result, and the
    coverage of the key column divides by the number of generated rows. *)
Theorem empty_table_verification_raises (lib ver : DataFrame) (key : string) :
  df_rows lib = [] ->
  In key (df_columns lib) -> In key (df_columns ver) ->
  new_VerifiedObjectLibrary float_of_str lib ver key = Raise ZeroDivisionError.
Proof.
  intros Hrows Hlib Hver.
  destruct lib as [cols lib_rows]. cbn [df_rows df_columns] in Hrows, Hlib. subst lib_rows.
  set (lib := {| df_columns := cols; df_rows := [] |}).
  change cols with (df_columns lib) in Hlib.
  destruct (index_of_present _ _ Hlib) as (j & Hj & Hnth).
  destruct (index_of_present _ _ Hver) as (j' & Hj' & _).
  unfold new_VerifiedObjectLibrary, check_error, set_index.
  rewrite Hj, Hj'. cbn [bind df_rows lib map mapM if_index if_columns reset_index combine].
  unfold error_report.
  match goal with
  | |- bind (mapM ?f ?l) _ = _ =>
      assert (Hrep : mapM f l = Raise ZeroDivisionError)
  end.
  2:{ rewrite Hrep. reflexivity. }
  apply mapM_raises.
  - intros param Hparam. unfold report_row.
    destruct (has_column param (df_columns ver)); [left | right; eexists; reflexivity].
    unfold get_column. cbn [df_columns df_rows reset_index if_columns if_index if_rows
                            combine map].
    assert (Hin : In param (key :: remove_nth j (df_columns lib))).
    { destruct (String.eqb_spec key param) as [->|Hne]; [left; reflexivity|].
      right. apply in_remove_nth_other; [exact Hparam | congruence]. }
    destruct (index_of_present _ _ Hin) as (n & Hn & _). cbn [df_columns lib] in Hn |- *.
    rewrite Hn. reflexivity.
  - exists key. split; [exact Hlib|]. unfold report_row, has_column.
    assert (Hk : existsb (String.eqb key) (df_columns ver) = true).
    { apply existsb_exists. exists key. split; [exact Hver | apply String.eqb_refl]. }
    rewrite Hk. unfold get_column.
    cbn [df_columns df_rows reset_index if_columns if_index if_rows combine map index_of].
    rewrite String.eqb_refl. reflexivity.
Qed.

End VerificationMoreFacts.

Lemma check_error_unknown_key_witness :
  check_error no_numeric_text bolts_generated bolts_reference "id" = Raise KeyError
  /\ new_VerifiedObjectLibrary no_numeric_text bolts_generated bolts_reference "id"
     = Raise KeyError.
Proof.
  apply check_error_unknown_key. left. simpl.
  intros [H|[H|[H|[]]]]; discriminate H.
Defined.

Lemma check_error_shape_witness :
  length (df_rows bolts_result) = length (df_rows bolts_generated)
  /\ get_column bolts_result "name" = Ok (keys_of bolts_generated "name")
  /\ rectangular bolts_result.
Proof.
  destruct (@check_error_shape no_numeric_text bolts_generated bolts_reference "name"
              bolts_result eq_refl) as (_ & Hlen & Hkeys & Hrect).
  split; [exact Hlen|]. split; [exact Hkeys | exact Hrect].
Defined.


Lemma empty_table_verification_raises_witness :
  new_VerifiedObjectLibrary no_numeric_text no_bolts bolts_reference "name"
  = Raise ZeroDivisionError.
Proof.
  apply empty_table_verification_raises.
  - reflexivity.
  - left; reflexivity.
  - left; reflexivity.
Defined.

(** ** Verifying a table against itself *)








Section SelfVerification.

Variable float_of_str : string -> option PyFloat.

Local Abbreviation error_calc' := (error_calc float_of_str).
Local Abbreviation check_cell' := (check_cell float_of_str).
Local Abbreviation check_row' := (check_row float_of_str).
Local Abbreviation check_error' := (check_error float_of_str).





End SelfVerification.


(** ** The verification report *)









Lemma percentage_ok (a b : nat) :
  b <> 0 -> exists c, percentage a b = Ok c.
Proof.
  intros Hb. unfold percentage. destruct (Nat.eqb_spec b 0); [contradiction|].
  eexists. reflexivity.
Qed.




Lemma mismatch_rate_all_match (m : nat) :
  m <> 0 -> mismatch_rate m 0 = num 0.
Proof.
  intros Hm. unfold mismatch_rate, num. rewrite Nat.add_0_r.
  destruct (Nat.eqb_spec m 0); [contradiction|].
  f_equal. apply Qc_is_canon. cbn [this Q2Qc]. rewrite !Qred_correct.
  assert (Hz : ~ (inject_Z (Z.of_nat m) == 0)%Q).
  { unfold Qeq. simpl. lia. }
  field. exact Hz.
Qed.

Lemma mismatch_rate_none_match (n : nat) :
  n <> 0 -> mismatch_rate 0 n = num 100.
Proof.
  intros Hn. unfold mismatch_rate, num. cbn [Nat.add].
  destruct (Nat.eqb_spec n 0); [contradiction|].
  f_equal. apply Qc_is_canon. cbn [this Q2Qc]. rewrite !Qred_correct.
  assert (Hz : ~ (inject_Z (Z.of_nat n) == 0)%Q).
  { unfold Qeq. simpl. lia. }
  cbn [Z.of_nat]. field. exact Hz.
Qed.

(** X16.  For a checked column whose first result cell is text, the four
    numeric statistics are ["N/A"]; [str error] is 0 when some cells are
    ["match"] and none is ["not match"], 100 when some are ["not match"]
    and none is ["match"], and NaN when the column has neither. *)
Theorem text_column_report (param : string) (s : string) (col : list Value)
  (nrows : nat) :
  nrows <> 0 ->
  exists row,
    report_checked param (VStr s :: col) nrows = Ok row
    /\ checked row = "yes"
    /\ max_error row = VStr "N/A" /\ avg_error row = VStr "N/A"
    /\ avg_abs_error row = VStr "N/A" /\ min_error row = VStr "N/A"
    /\ (count_equal "match" (VStr s :: col) <> 0 ->
        count_equal "not match" (VStr s :: col) = 0 -> str_error row = num 0)
    /\ (count_equal "match" (VStr s :: col) = 0 ->
        count_equal "not match" (VStr s :: col) <> 0 -> str_error row = num 100)
    /\ (count_equal "match" (VStr s :: col) = 0 ->
        count_equal "not match" (VStr s :: col) = 0 -> str_error row = VNaN).
Proof.
  intros Hn.
  destruct (percentage_ok (length (dropna (VStr s :: col))) nrows Hn) as (cov & Hcov).
  unfold report_checked. rewrite Hcov. cbn [bind column_is_text first_cell is_str].
  eexists. split; [reflexivity|].
  cbn [checked max_error min_error avg_error avg_abs_error str_error].
  repeat split.
  - intros Hm Hnm. rewrite Hnm. apply mismatch_rate_all_match. exact Hm.
  - intros Hm Hnm. rewrite Hm. apply mismatch_rate_none_match. exact Hnm.
  - intros Hm Hnm. rewrite Hm, Hnm. reflexivity.
Qed.

Lemma text_column_report_witness :
  exists row,
    report_checked "grade" [VStr "match"; VNaN; VStr "match"] 3 = Ok row
    /\ str_error row = num 0.
Proof.
  destruct (text_column_report "grade" "match" [VNaN; VStr "match"] 3)
    as (row & Hrow & _ & _ & _ & _ & _ & Hzero & _).
  - discriminate.
  - exists row. split; [exact Hrow|]. apply Hzero; [discriminate | reflexivity].
Defined.

(** ** Coverage is a percentage *)

Lemma round_digits_2_percentage (x : Qc) :
  (Q2Qc 0 <= x)%Qc -> (x <= Q2Qc 100)%Qc ->
  (Q2Qc 0 <= round_digits 2 x)%Qc /\ (round_digits 2 x <= Q2Qc 100)%Qc.
Proof.
  unfold Qcle. cbn [this Q2Qc]. rewrite !Qred_correct. intros H0 H100.
  unfold round_digits.
  change (inject_Z (10 ^ Z.of_nat 2)) with (inject_Z 100).
  destruct (@round_half_even_bounds (this x * inject_Z 100) 0 10000) as [Hr0 Hr1].
  - change (inject_Z 0) with 0%Q. apply Qmult_le_0_compat; [exact H0 | discriminate].
  - change (inject_Z 10000) with (100 * inject_Z 100)%Q.
    apply Qmult_le_compat_r; [exact H100 | discriminate].
  - set (r := round_half_even (this x * inject_Z 100)) in *.
    apply (@f64_bounds (inject_Z r / inject_Z 100) 100).
    + apply Qle_shift_div_l; [reflexivity|]. rewrite Qmult_0_l.
      change 0%Q with (inject_Z 0). rewrite <- Zle_Qle. exact Hr0.
    + apply Qle_shift_div_r; [reflexivity|].
      change (inject_Z 100 * inject_Z 100)%Q with (inject_Z 10000).
      rewrite <- Zle_Qle. exact Hr1.
    + reflexivity.
Qed.

Lemma percentage_bounds (a b : nat) (c : Qc) :
  a <= b -> percentage a b = Ok c -> (Q2Qc 0 <= c)%Qc /\ (c <= Q2Qc 100)%Qc.
Proof.
  intros Hab. unfold percentage. destruct (Nat.eqb_spec b 0) as [|Hb]; [discriminate|].
  intros H. injection H as <-.
  unfold Qcle. cbn [this Q2Qc]. rewrite !Qred_correct.
  assert (Hbpos : (0 < inject_Z (Z.of_nat b))%Q).
  { change 0%Q with (inject_Z 0). rewrite <- Zlt_Qlt. lia. }
  assert (Ha0 : (0 <= inject_Z (Z.of_nat a))%Q).
  { change 0%Q with (inject_Z 0). rewrite <- Zle_Qle. lia. }
  assert (Hab' : (inject_Z (Z.of_nat a) <= inject_Z (Z.of_nat b))%Q).
  { rewrite <- Zle_Qle. lia. }
  destruct (@f64_bounds (inject_Z (Z.of_nat a) / inject_Z (Z.of_nat b)) 1) as [Hq0 Hq1].
  { apply Qle_shift_div_l; [exact Hbpos|]. rewrite Qmult_0_l. exact Ha0. }
  { apply Qle_shift_div_r; [exact Hbpos|]. change (inject_Z 1) with 1%Q.
    rewrite Qmult_1_l. exact Hab'. }
  { reflexivity. }
  change (inject_Z 1) with 1%Q in Hq1.
  apply (@f64_bounds (f64 (inject_Z (Z.of_nat a) / inject_Z (Z.of_nat b)) * 100) 100).
  - apply Qmult_le_0_compat; [exact Hq0 | discriminate].
  - change (inject_Z 100) with (1 * 100)%Q.
    apply Qmult_le_compat_r; [exact Hq1 | discriminate].
  - reflexivity.
Qed.

(** 23 present cells of 160: the exact ratio is 14.375 percent, the float
    product lies below it, and the coverage is 14.37. *)
Example coverage_of_23_in_160 :
  exists cov, percentage 23 160 = Ok cov
    /\ (cov < Q2Qc (14375 # 1000))%Qc
    /\ round_digits 2 cov = f64 (1437 # 100).
Proof.
  eexists. split; [reflexivity|]. split; vm_compute; reflexivity.
Qed.

Lemma report_checked_coverage (param : string) (col : list Value) (nrows : nat)
  (row : ReportRow) :
  report_checked param col nrows = Ok row ->
  exists cov, percentage (length (dropna col)) nrows = Ok cov
              /\ checked row = "yes"
              /\ coverage row = VNum (round_digits 2 cov).
Proof.
  unfold report_checked. intros H.
  destruct (percentage (length (dropna col)) nrows) as [cov|e]; [|discriminate].
  cbn [bind] in H. exists cov. split; [reflexivity|].
  destruct (column_is_text col) as [[|]|e]; [| |discriminate]; cbn [bind] in H.
  - injection H as <-. split; reflexivity.
  - destruct (dropna col) as [|x present].
    + injection H as <-. split; reflexivity.
    + repeat match type of H with
             | bind ?c _ = Ok _ => destruct c; [cbn [bind] in H | discriminate]
             end.
      injection H as <-. split; reflexivity.
Qed.

Lemma length_dropna (col : list Value) : length (dropna col) <= length col.
Proof. unfold dropna. apply filter_length_le. Qed.

Lemma get_column_length (df : DataFrame) (name : string) (col : list Value) :
  get_column df name = Ok col -> length col = length (df_rows df).
Proof.
  unfold get_column. destruct (index_of name (df_columns df)); [|discriminate].
  intros H. injection H as <-. apply length_map.
Qed.

Section CoverageFacts.

Variable float_of_str : string -> option PyFloat.

Lemma check_error_row_count (lib ver : DataFrame) (key : string) (res : DataFrame) :
  check_error float_of_str lib ver key = Ok res ->
  length (df_rows res) = length (df_rows lib).
Proof.
  intros H.
  destruct (check_error_result _ _ _ _ _ H)
    as (j & lib_df & verify_df & rows & _ & _ & _ & Hidx & _ & Hrows & ->).
  destruct (mapM_nth _ _ Hrows) as [Hlen _].
  cbn [df_rows]. rewrite length_map, length_combine, Hlen, Nat.min_id, Hidx.
  apply length_map.
Qed.

(** X17.  In the report of a constructed [VerifiedObjectLibrary] every row
    is either an unchecked column (checked ["no"], coverage NaN) or a
    checked column whose coverage is a number between 0 and 100; the report
    has one row per column of the generated table, in column order. *)
Theorem report_coverage_is_percentage
  (lib ver : DataFrame) (key : string) (vol : VerifiedObjectLibrary) :
  new_VerifiedObjectLibrary float_of_str lib ver key = Ok vol ->
  map parameter (report_df vol) = df_columns lib
  /\ forall row, In row (report_df vol) ->
       (checked row = "no" /\ coverage row = VNaN)
       \/ (checked row = "yes"
           /\ exists c, coverage row = VNum c
                        /\ (Q2Qc 0 <= c)%Qc /\ (c <= Q2Qc 100)%Qc).
Proof.
  unfold new_VerifiedObjectLibrary. intros H.
  destruct (check_error float_of_str lib ver key) as [res|e] eqn:Hres; [|discriminate].
  cbn [bind] in H.
  destruct (error_report lib ver res) as [rep|e] eqn:Hrep; [|discriminate].
  cbn [bind] in H. injection H as <-. cbn [report_df].
  unfold error_report in Hrep. destruct (mapM_nth _ _ Hrep) as [Hlen Hnth].
  assert (Hrow : forall n row, nth_error rep n = Some row ->
            exists param, nth_error (df_columns lib) n = Some param
                          /\ report_row lib ver res param = Ok row).
  { intros n row Hn.
    destruct (nth_error (df_columns lib) n) as [param|] eqn:Hp.
    - destruct (Hnth n param Hp) as (row' & Hrow' & Hr). exists param.
      split; [reflexivity|]. congruence.
    - apply nth_error_None in Hp.
      assert (n < length rep) by (apply nth_error_Some; congruence). lia. }
  assert (Hparam : forall param row, report_row lib ver res param = Ok row ->
            parameter row = param).
  { intros param row Hr. unfold report_row in Hr.
    destruct (has_column param (df_columns ver)).
    - destruct (get_column res param) as [col|e]; [|discriminate]. cbn [bind] in Hr.
      unfold report_checked in Hr.
      repeat match type of Hr with
             | bind ?c _ = Ok _ => destruct c; [cbn [bind] in Hr | discriminate]
             | (if ?b then _ else _) = Ok _ => destruct b
             | match ?l with [] => _ | _ :: _ => _ end = Ok _ => destruct l
             end; injection Hr as <-; reflexivity.
    - injection Hr as <-. reflexivity. }
  split.
  - apply nth_error_ext. intros n. rewrite nth_error_map.
    destruct (nth_error rep n) as [row|] eqn:Hn; cbn [option_map].
    + destruct (Hrow n row Hn) as (param & Hp & Hr). rewrite Hp.
      f_equal. apply Hparam. exact Hr.
    + symmetry. apply nth_error_None. apply nth_error_None in Hn. lia.
  - intros row Hin. apply In_nth_error in Hin as (n & Hn).
    destruct (Hrow n row Hn) as (param & _ & Hr). unfold report_row in Hr.
    destruct (has_column param (df_columns ver)).
    + right. destruct (get_column res param) as [col|e] eqn:Hcol; [|discriminate].
      cbn [bind] in Hr.
      destruct (report_checked_coverage _ _ _ _ Hr) as (cov & Hcov & Hyes & Hc).
      split; [exact Hyes|]. exists (round_digits 2 cov). split; [exact Hc|].
      assert (Hle : length (dropna col) <= length (df_rows lib)).
      { rewrite <- (check_error_row_count _ _ _ _ Hres).
        rewrite <- (get_column_length _ _ _ Hcol). apply length_dropna. }
      destruct (percentage_bounds _ _ _ Hle Hcov) as [H0 H1].
      apply round_digits_2_percentage; assumption.
    + left. injection Hr as <-. split; reflexivity.
Qed.

End CoverageFacts.

Lemma report_coverage_is_percentage_witness :
  map parameter bolts_report = df_columns bolts_generated
  /\ forall row, In row bolts_report ->
       (checked row = "no" /\ coverage row = VNaN)
       \/ (checked row = "yes"
           /\ exists c, coverage row = VNum c
                        /\ (Q2Qc 0 <= c)%Qc /\ (c <= Q2Qc 100)%Qc).
Proof.
  apply (report_coverage_is_percentage no_numeric_text bolts_generated bolts_reference "name"
           {| vol_object_library := bolts_generated;
              vol_verification_library := bolts_reference;
              vol_lookup_index := "name";
              result_df := bolts_result; report_df := bolts_report |}).
  vm_compute. reflexivity.
Defined.

(** ** Merging parameter lists *)

Lemma length_expansion (data : DesignVarSets) :
  dict_keys_unique data ->
  length (read_design_variable_set data) = list_prod (var_sizes data).
Proof.
  intros Hkeys. rewrite (read_design_variable_set_rec Hkeys).
  rewrite length_map, length_product_rec. apply list_prod_var_sizes.
Qed.

(** X18.  Merging the expansions of several design variable sets (each with
    unique variable names) concatenates them in the order given: the merged
    list has as many records as the sum of the products of the sets'
    sequence lengths, and a record is in it exactly when it is a
    combination of one of the sets; nothing is deduplicated, a record
    occurs as often as in all the sets together. *)
Theorem merge_parameter_lists_concatenates (datas : list DesignVarSets) :
  Forall (@dict_keys_unique (list Value)) datas ->
  let merged := merge_parameter_lists (map new_DesignVariableSet datas) in
  merged = concat (map read_design_variable_set datas)
  /\ length merged = list_sum (map (fun data => list_prod (var_sizes data)) datas)
  /\ (forall rec, In rec merged <-> exists data, In data datas /\ is_combination data rec)
  /\ (forall rec, count_occ ParamRecord_eq_dec merged rec
                  = list_sum (map (fun data =>
                                     count_occ ParamRecord_eq_dec
                                               (read_design_variable_set data) rec)
                                  datas)).
Proof.
  intros Hall merged. subst merged. unfold merge_parameter_lists.
  induction Hall as [|data datas Hdata Hall (IH1 & IH2 & IH3 & IH4)].
  - cbn. repeat split; try reflexivity; try contradiction.
    intros (data & [] & _).
  - cbn [map flat_map concat dvs_param_list new_DesignVariableSet list_sum fold_right].
    split; [rewrite IH1; reflexivity|].
    split; [rewrite length_app, IH2, (length_expansion _ Hdata); reflexivity|].
    split.
    + intros rec. rewrite in_app_iff, IH3, (@in_expansion_iff data rec Hdata). split.
      * intros [H | (d & Hd & Hc)]; [exists data; split; [left; reflexivity | exact H]|].
        exists d. split; [right; exact Hd | exact Hc].
      * intros (d & [<-|Hd] & Hc); [left; exact Hc | right; exists d; split; assumption].
    + intros rec. rewrite count_occ_app, IH4. reflexivity.
Qed.

Lemma merge_parameter_lists_concatenates_witness :
  length (merge_parameter_lists
            [new_DesignVariableSet beam_vars; new_DesignVariableSet beam_vars]) = 4 + (4 + 0)
  /\ count_occ ParamRecord_eq_dec
       (merge_parameter_lists
          [new_DesignVariableSet beam_vars; new_DesignVariableSet beam_vars])
       [("length", num 1); ("material", VStr "alu")] = 2.
Proof.
  destruct (merge_parameter_lists_concatenates [beam_vars; beam_vars])
    as (_ & Hlen & _ & Hcount).
  - constructor; [exact beam_vars_keys_unique|].
    constructor; [exact beam_vars_keys_unique | constructor].
  - split; [exact Hlen|]. rewrite Hcount. vm_compute. reflexivity.
Defined.
